(** * pastecat: the memory-mapped paste store and the POST handler

    A shallow embedding of [storage_mmap.go] (the [MmapStore] backend:
    [Get], [Put], [Delete], [Recover] and the [MmapPaste] handle) and of
    [handlePost] from [pastecat.go], with the theorems that settle the
    specification's claims about them.

    Conventions of the embedding:
    - Go's [int] and [int64] are [Z] with the two's-complement wrap-around
      written out ([wrap64]); [time.Duration] is an [int64] of nanoseconds
      and [time.Time] an instant in nanoseconds.
    - The Go map [map[ID]mmapCache] is a [gmap ID mmapCache]; it stores
      struct VALUES, so reading an entry copies it.
    - Everything outside the store that the code touches (files, mappings,
      the Go heap cells that escape, the pending deletion timers) lives in
      a [World] that is threaded through every operation.
    - A system call can fail for reasons the program does not control; each
      operation takes the faults the operating system injects as an explicit
      argument ([None] means the call behaves normally). *)

From Stdlib Require Import ZArith Lia.
From stdpp Require Import gmap strings list fin_maps.

Open Scope Z_scope.

(** ** Machine integers *)

Module Int64.

Definition min : Z := - 2 ^ 63.
Definition max : Z := 2 ^ 63 - 1.

(** Two's-complement wrap-around of a 64-bit signed integer. *)
Definition wrap64 (z : Z) : Z := (z + 2 ^ 63) mod 2 ^ 64 - 2 ^ 63.

Definition in64 (z : Z) : Prop := min <= z <= max.

Definition add (a b : Z) : Z := wrap64 (a + b).
Definition sub (a b : Z) : Z := wrap64 (a - b).

End Int64.

(** ** Errors *)

(** [ErrPasteNotFound] is the error of the source.  The quota and
    exhaustion errors are named in the specification only.  [Errno] is an
    error number returned by a system call, [ErrOther] any other error
    value (a parse error, an error handed in by the directory walk). *)
Inductive error : Type :=
| ErrPasteNotFound
| QuotaExceeded
| ExhaustionError
| Errno (code : N)
| ErrOther (msg : string).

Definition EBADF : error := Errno 9.
Definition EINVAL : error := Errno 22.
Definition ENOENT : error := Errno 2.

Inductive result (A : Type) : Type :=
| Ok (a : A)
| Err (e : error).
Arguments Ok {A} a.
Arguments Err {A} e.

(** ** Identifiers *)

(** Modelled from the spec: the declaration of [ID] is not in src.  An
    identifier is a "fixed-width opaque token, represented as a printable
    fixed-length hex string"; it is kept here in its printable form.
    [zeroID] stands for the zero value [ID{}] that [Put] returns next to
    an error. *)
Definition ID : Type := string.
Definition zeroID : ID := ""%string.

(** ** The quota tracker *)

(** Modelled from the spec: [Stats] and its methods are not in src.  The
    quota state is [{currentCount, currentBytes, maxCount (0 = unbounded),
    maxBytes (0 = unbounded)}]. *)
Record Stats : Type := mkStats {
  number : Z;
  maxNumber : Z;
  storage : Z;
  maxStorage : Z
}.

(** Modelled from the spec: the check half of [Reserve], which "fails with
    QuotaExceeded if either ceiling would be exceeded".  The source of the
    mapped store calls it [hasSpaceFor]. *)
Definition hasSpaceFor (st : Stats) (size : Z) : option error :=
  if (0 <? maxNumber st) && (maxNumber st <? Int64.add (number st) 1) then
    Some QuotaExceeded
  else if (0 <? maxStorage st) && (maxStorage st <? Int64.add (storage st) size) then
    Some QuotaExceeded
  else None.

(** Modelled from the spec: the update half of [Reserve], which "increments
    currentCount and currentBytes".  The source calls it [makeSpaceFor]. *)
Definition makeSpaceFor (st : Stats) (size : Z) : Stats :=
  mkStats (Int64.add (number st) 1) (maxNumber st)
          (Int64.add (storage st) size) (maxStorage st).

(** Modelled from the spec: [Release], which "decrements both counters;
    never fails".  The source calls it [freeSpace]. *)
Definition freeSpace (st : Stats) (size : Z) : Stats :=
  mkStats (Int64.sub (number st) 1) (maxNumber st)
          (Int64.sub (storage st) size) (maxStorage st).

(** The two ceilings of the data model. *)
Definition quota_ok (st : Stats) : Prop :=
  (0 < maxNumber st -> number st <= maxNumber st) /\
  (0 < maxStorage st -> storage st <= maxStorage st).

(** ** Cache entries, handles and the world *)

(** A [[]byte] that aliases mapped memory: its address and length. *)
Record slice : Type := mkSlice {
  addr : N;
  slen : nat
}.

(** [mmapCache]; [reading] is the counter of the embedded
    [sync.WaitGroup], which is part of the struct value. *)
Record mmapCache : Type := mkCache {
  reading : Z;
  modTime : Z;
  path : string;
  mmap : slice;
  size : Z
}.

(** [bytes.Reader] over a slice: the slice and the read offset. *)
Record Reader : Type := mkReader {
  r_s : slice;
  r_i : nat
}.

(** [MmapPaste]; [pcache] is the pointer [cache *mmapCache], an address in
    the Go heap. *)
Record MmapPaste : Type := mkPaste {
  content : Reader;
  pcache : N
}.

Record File : Type := mkFile {
  f_content : list Byte.byte;
  f_modTime : Z
}.

(** [os.FileInfo], as far as [Recover] looks at it. *)
Record FileInfo : Type := mkFileInfo {
  IsDir : bool;
  ModTime : Z;
  Size : Z
}.

Record World : Type := mkWorld {
  fs : gmap string File;         (* the files, by path *)
  vm : gmap N (list Byte.byte);  (* the live mappings, by base address *)
  brk : N;                       (* the next fresh mapping address *)
  heap : gmap N mmapCache;       (* escaped [mmapCache] copies, by address *)
  hp : N;                        (* the next fresh heap address *)
  timers : list (ID * Z);        (* pending deletions: id and delay *)
  pagesize : nat                 (* the size of a memory page *)
}.

Definition set_fs (w : World) (f : gmap string File) : World :=
  mkWorld f (vm w) (brk w) (heap w) (hp w) (timers w) (pagesize w).
Definition set_vm (w : World) (v : gmap N (list Byte.byte)) (b : N) : World :=
  mkWorld (fs w) v b (heap w) (hp w) (timers w) (pagesize w).
Definition set_heap (w : World) (h : gmap N mmapCache) (p : N) : World :=
  mkWorld (fs w) (vm w) (brk w) h p (timers w) (pagesize w).
Definition set_timers (w : World) (t : list (ID * Z)) : World :=
  mkWorld (fs w) (vm w) (brk w) (heap w) (hp w) t (pagesize w).

Definition emptyWorld : World := mkWorld ∅ ∅ 1%N ∅ 1%N [] 4096.

(** [MmapStore]: the entry table, the directory and the quota state.  The
    embedded [sync.RWMutex] is the atomicity of the operations below: each
    of [Get], [Put], [Delete] and the locked part of [Recover] is one step. *)
Record MmapStore : Type := mkStore {
  cache : gmap ID mmapCache;
  dir : string;
  stats : Stats
}.

(** ** The operating system *)

Module OS.

(** [os.Remove]. *)
Definition Remove (name : string) (fault : option error) (w : World)
  : option error * World :=
  match fault with
  | Some e => (Some e, w)
  | None =>
      match fs w !! name with
      | None => (Some ENOENT, w)
      | Some _ => (None, set_fs w (delete name (fs w)))
      end
  end.

(** [os.Open] for reading; [None] is the nil [*os.File] that comes with
    an error (the source drops that error). *)
Definition Open (name : string) (fault : option error) (w : World)
  : option File :=
  match fault with
  | Some _ => None
  | None => fs w !! name
  end.

(** What a mapping of a file lets a program read: the file's bytes, then
    zeros up to the end of the file's last page.  An access beyond that
    page faults, although the mapping may be longer. *)
Definition padding (page size : nat) : nat :=
  match page with
  | O => O
  | S _ => ((page - size mod page) mod page)%nat
  end.

Definition backing (page : nat) (f : File) : list Byte.byte :=
  f_content f ++ replicate (padding page (length (f_content f))) Byte.x00.

(** [syscall.Mmap(fd, 0, length, PROT_READ, MAP_SHARED)]: a non-positive
    length is refused with [EINVAL] before the system call; the bad
    descriptor of a nil file gives [EBADF].  The slice has [length]
    bytes; the region keeps the bytes of it that can be read. *)
Definition Mmap (file : option File) (length : Z) (fault : option error)
    (w : World) : result slice * World :=
  if length <=? 0 then (Err EINVAL, w)
  else match file with
       | None => (Err EBADF, w)
       | Some f =>
           match fault with
           | Some e => (Err e, w)
           | None =>
               let data := take (Z.to_nat length) (backing (pagesize w) f) in
               (Ok (mkSlice (brk w) (Z.to_nat length)),
                set_vm w (<[brk w := data]> (vm w)) (N.succ (brk w)))
           end
       end.

(** [syscall.Munmap]: an empty slice or one that is no live mapping is
    refused with [EINVAL]. *)
Definition Munmap (b : slice) (fault : option error) (w : World)
  : option error * World :=
  match slen b with
  | O => (Some EINVAL, w)
  | S _ =>
      match vm w !! addr b with
      | None => (Some EINVAL, w)
      | Some _ =>
          match fault with
          | Some e => (Some e, w)
          | None => (None, set_vm w (delete (addr b) (vm w)) (brk w))
          end
      end
  end.

(** Reading through a slice into a buffer of [n] bytes at offset [off]:
    the bytes copied are those of the slice from [off] on, as many as fit;
    when there is none to copy no memory is touched.  [None] is the memory
    fault of touching a region that is no longer mapped, or a byte of the
    slice that the region cannot read. *)
Definition load (b : slice) (off n : nat) (w : World)
  : option (list Byte.byte) :=
  let want := Nat.min n (slen b - off) in
  if (want =? 0)%nat then Some []
  else
    match vm w !! addr b with
    | None => None
    | Some data =>
        if (off + want <=? length data)%nat then Some (take want (drop off data))
        else None
    end.

End OS.

(** ** Helpers of the package that the store calls *)

(** Modelled from the spec: [randomID] is not in src.  The generator
    "retries generation while isAvailable returns false for the candidate;
    fails with ExhaustionError after a bounded number of retries".
    [draws] are the candidates the random source yields for this call, one
    per allowed try. *)
Definition randomID (draws : list ID) (available : ID -> bool) : result ID :=
  match List.find available draws with
  | Some id => Ok id
  | None => Err ExhaustionError
  end.

(** Modelled from the spec: [writeNewFile] is not in src.  The mapped
    backend's [Put] "write[s] the file"; on success the file at [name]
    holds exactly [data], stamped with the clock's time. *)
Definition writeNewFile (name : string) (data : list Byte.byte) (now : Z)
    (fault : option error) (w : World) : option error * World :=
  match fault with
  | Some e => (Some e, w)
  | None => (None, set_fs w (<[name := mkFile data now]> (fs w)))
  end.

(** [getMmap] *)
Definition getMmap (file : option File) (length : Z) (fault : option error)
    (w : World) : result slice * World :=
  OS.Mmap file length fault w.

(** [time.Time.Sub]: the difference of two instants as a [Duration],
    saturated at the ends of [int64]. *)
Definition Sub (t u : Z) : Z :=
  let d := t - u in
  if d <? Int64.min then Int64.min
  else if Int64.max <? d then Int64.max
  else d.

(** ** The handle: [MmapPaste] *)

(** [bytes.NewReader] *)
Definition NewReader (b : slice) : Reader := mkReader b 0.

(** [MmapPaste.Read] with a buffer of [n] bytes: the bytes read and the
    handle with its offset advanced; [None] is a memory fault. *)
Definition Read (c : MmapPaste) (n : nat) (w : World)
  : option (list Byte.byte * MmapPaste) :=
  match OS.load (r_s (content c)) (r_i (content c)) n w with
  | None => None
  | Some bs =>
      Some (bs, mkPaste (mkReader (r_s (content c))
                                  (r_i (content c) + length bs)%nat)
                        (pcache c))
  end.

(** [MmapPaste.ReadAt] *)
Definition ReadAt (c : MmapPaste) (n : nat) (off : nat) (w : World)
  : option (list Byte.byte) :=
  OS.load (r_s (content c)) off n w.

(** [MmapPaste.Size] and [MmapPaste.ModTime] read the pointed-to copy. *)
Definition PasteSize (c : MmapPaste) (w : World) : option Z :=
  size <$> heap w !! pcache c.
Definition PasteModTime (c : MmapPaste) (w : World) : option Z :=
  modTime <$> heap w !! pcache c.

Definition set_reading (c : mmapCache) (n : Z) : mmapCache :=
  mkCache n (modTime c) (path c) (mmap c) (size c).

(** [MmapPaste.Close]: [reading.Done()] on the pointed-to copy; [None] is
    the panic of a counter that would go negative (or of a dangling
    pointer, which the store never produces). *)
Definition Close (c : MmapPaste) (w : World) : option World :=
  match heap w !! pcache c with
  | None => None
  | Some cached =>
      if reading cached - 1 <? 0 then None
      else Some (set_heap w (<[pcache c := set_reading cached (reading cached - 1)]> (heap w))
                          (hp w))
  end.

(** The whole content, read from the start in one call. *)
Definition ReadAll (c : MmapPaste) (w : World) : option (list Byte.byte) :=
  fst <$> Read c (slen (r_s (content c))) w.

(** What the operating system and the runtime contribute to one call. *)
Record PutEnv : Type := mkPutEnv {
  draws : list ID;              (* the random candidates of [randomID] *)
  now : Z;                      (* the clock *)
  write_fault : option error;
  open_fault : option error;
  mmap_fault : option error
}.

Record DeleteEnv : Type := mkDeleteEnv {
  munmap_fault : option error;
  remove_fault : option error
}.

Record RecoverEnv : Type := mkRecoverEnv {
  rec_remove_fault : option error;
  rec_open_fault : option error;
  rec_mmap_fault : option error
}.

Definition noPutFault (ids : list ID) (t : Z) : PutEnv :=
  mkPutEnv ids t None None None.
Definition noDeleteFault : DeleteEnv := mkDeleteEnv None None.
Definition noRecoverFault : RecoverEnv := mkRecoverEnv None None None.

(** How a call that may wait ends: it returns, or it waits forever (with
    the store's lock held). *)
Inductive outcome : Type :=
| Returns (err : option error) (s : MmapStore) (w : World)
| Blocks (s : MmapStore) (w : World).

(** ** The store *)

Section Store.

(** Package-level values and helpers that are not in src: the configured
    lifetime, the time the process started, and the two translations
    between identifiers and paths. *)
Variable lifeTime : Z.
Variable startTime : Z.
Variable idFromPath : string -> result ID.
Variable pathFromID : ID -> string.

(** Modelled from the spec: [setupPasteDeletion] is not in src.  "If
    expiration is disabled (lifetime = 0), no timer is armed"; otherwise
    the scheduler holds a one-shot deletion of [id] with delay [after].
    A delay that is not positive means the deletion is due at once; the
    deletion itself is a [Delete] step of its own, as [Recover] still
    holds the store's lock when it calls the scheduler. *)
Definition setupPasteDeletion (w : World) (id : ID) (after : Z) : World :=
  if lifeTime =? 0 then w
  else set_timers w ((id, after) :: timers w).

(** [MmapStore.Get].  [cached] is a copy of the table's entry; the
    counter that [Add(1)] increments is the copy's, and the handle points
    to that copy.  The table is not written. *)
Definition Get (s : MmapStore) (id : ID) (w : World)
  : result MmapPaste * World :=
  match cache s !! id with
  | None => (Err ErrPasteNotFound, w)
  | Some cached =>
      let reader := NewReader (mmap cached) in
      let cached := set_reading cached (reading cached + 1) in
      let p := hp w in
      (Ok (mkPaste reader p),
       set_heap w (<[p := cached]> (heap w)) (N.succ p))
  end.

(** [MmapStore.Put] *)
Definition Put (s : MmapStore) (data : list Byte.byte) (env : PutEnv)
    (w : World) : ID * option error * MmapStore * World :=
  let size := Z.of_nat (length data) in
  match hasSpaceFor (stats s) size with
  | Some err => (zeroID, Some err, s, w)
  | None =>
      let available := fun id : ID => bool_decide (cache s !! id = None) in
      match randomID (draws env) available with
      | Err err => (zeroID, Some err, s, w)
      | Ok id =>
          let pastePath := pathFromID id in
          match writeNewFile pastePath data (now env) (write_fault env) w with
          | (Some err, w) => (id, Some err, s, w)
          | (None, w) =>
              let f := OS.Open pastePath (open_fault env) w in
              match getMmap f (Z.of_nat (length data)) (mmap_fault env) w with
              | (Err err, w) => (id, Some err, s, w)
              | (Ok data, w) =>
                  let st := makeSpaceFor (stats s) size in
                  let entry := mkCache 0 (now env) pastePath data size in
                  (id, None, mkStore (<[id := entry]> (cache s)) (dir s) st, w)
              end
          end
      end
  end.

(** [MmapStore.Delete].  [cached] is again a copy of the table's entry,
    and [Wait] waits on the copy's counter. *)
Definition Delete (s : MmapStore) (id : ID) (env : DeleteEnv) (w : World)
  : outcome :=
  match cache s !! id with
  | None => Returns (Some ErrPasteNotFound) s w
  | Some cached =>
      let s := mkStore (delete id (cache s)) (dir s) (stats s) in
      if 0 <? reading cached then Blocks s w
      else
        match OS.Munmap (mmap cached) (munmap_fault env) w with
        | (Some err, w) => Returns (Some err) s w
        | (None, w) =>
            match OS.Remove (path cached) (remove_fault env) w with
            | (Some err, w) => Returns (Some err) s w
            | (None, w) =>
                Returns None
                  (mkStore (cache s) (dir s) (freeSpace (stats s) (size cached)))
                  w
            end
        end
  end.

(** [MmapStore.Recover], the callback of the directory walk. *)
Definition Recover (s : MmapStore) (path : string) (fileInfo : FileInfo)
    (err : option error) (env : RecoverEnv) (w : World)
  : option error * MmapStore * World :=
  if bool_decide (err <> None) || IsDir fileInfo then (err, s, w)
  else
    match idFromPath path with
    | Err err => (Some err, s, w)
    | Ok id =>
        let modTime := ModTime fileInfo in
        let deathTime := modTime + lifeTime in
        let lifeLeft := Sub deathTime startTime in
        if (0 <? lifeTime) && (lifeLeft <=? 0) then
          let '(e, w) := OS.Remove path (rec_remove_fault env) w in (e, s, w)
        else
          let size := Size fileInfo in
          if size =? 0 then
            let '(e, w) := OS.Remove path (rec_remove_fault env) w in (e, s, w)
          else
            match hasSpaceFor (stats s) size with
            | Some err => (Some err, s, w)
            | None =>
                let pasteFile := OS.Open path (rec_open_fault env) w in
                match getMmap pasteFile size (rec_mmap_fault env) w with
                | (Err err, w) => (Some err, s, w)
                | (Ok mmap, w) =>
                    let st := makeSpaceFor (stats s) size in
                    let cached := mkCache 0 modTime path mmap size in
                    let s := mkStore (<[id := cached]> (cache s)) (dir s) st in
                    (None, s, setupPasteDeletion w id lifeLeft)
                end
            end
    end.

End Store.

(** ** The directory walk and start-up *)

(** One entry the walk hands to the callback, with what the operating
    system does during that call. *)
Record WalkEntry : Type := mkWalkEntry {
  we_path : string;
  we_info : FileInfo;
  we_err : option error;
  we_env : RecoverEnv
}.

Section Startup.

Variable lifeTime : Z.
Variable startTime : Z.
Variable idFromPath : string -> result ID.

(** Modelled from the spec: [setupSubdirs] is not in src.  It hands
    every entry under the root to the callback ("for every regular file
    under the root"), through Go's [filepath.Walk], whose contract is
    that the walk stops at the first error the callback returns and
    returns that error. *)
Fixpoint setupSubdirs (entries : list WalkEntry) (s : MmapStore) (w : World)
  : option error * MmapStore * World :=
  match entries with
  | [] => (None, s, w)
  | e :: rest =>
      match Recover lifeTime startTime idFromPath s
                    (we_path e) (we_info e) (we_err e) (we_env e) w with
      | (Some err, s, w) => (Some err, s, w)
      | (None, s, w) => setupSubdirs rest s w
      end
  end.

(** [NewMmapStore], after [setupTopDir] succeeded: a zeroed store with an
    empty table, then the recovery walk; an error of the walk means no
    store. *)
Definition NewMmapStore (dir : string) (entries : list WalkEntry) (w : World)
  : result MmapStore * World :=
  let s := mkStore ∅ dir (mkStats 0 0 0 0) in
  match setupSubdirs entries s w with
  | (Some err, _, w) => (Err err, w)
  | (None, s, w) => (Ok s, w)
  end.

End Startup.

(** ** Sequences of operations *)

Inductive op : Type :=
| OpPut (data : list Byte.byte) (env : PutEnv)
| OpDelete (id : ID) (env : DeleteEnv)
| OpRecover (path : string) (fileInfo : FileInfo) (err : option error)
            (env : RecoverEnv).

Section Run.

Variable lifeTime : Z.
Variable startTime : Z.
Variable idFromPath : string -> result ID.
Variable pathFromID : ID -> string.

(** One operation on the store; the flag is [false] when the operation
    never returns. *)
Definition step (o : op) (s : MmapStore) (w : World)
  : MmapStore * World * bool :=
  match o with
  | OpPut data env =>
      let '(_, _, s, w) := Put pathFromID s data env w in (s, w, true)
  | OpDelete id env =>
      match Delete s id env w with
      | Returns _ s w => (s, w, true)
      | Blocks s w => (s, w, false)
      end
  | OpRecover path fileInfo err env =>
      let '(_, s, w) := Recover lifeTime startTime idFromPath s path fileInfo err env w in
      (s, w, true)
  end.

(** The operations one after the other, each under the store's lock; a
    call that never returns keeps the lock, so nothing runs after it. *)
Fixpoint run (ops : list op) (s : MmapStore) (w : World) : MmapStore * World :=
  match ops with
  | [] => (s, w)
  | o :: rest =>
      let '(s, w, live) := step o s w in
      if live then run rest s w else (s, w)
  end.

End Run.

(** ** The POST handler *)

Module Handler.

(** The [storage.Store] interface, as far as the handler and the deletion
    scheduler use it.  The state of a store is whatever the implementation
    keeps, together with what its environment will do. *)
Class Store (S : Type) : Type := {
  sPut : list Byte.byte -> S -> ID * option error * S;
  sDelete : ID -> S -> option error * S
}.

(** Modelled from the spec: [Stats.MakeSpaceFor] is not in src.  It is
    [Reserve]: it "fails with QuotaExceeded if either ceiling would be
    exceeded; otherwise atomically increments currentCount and
    currentBytes". *)
Definition MakeSpaceFor (st : Stats) (size : Z) : option error * Stats :=
  match hasSpaceFor st size with
  | Some err => (Some err, st)
  | None => (None, makeSpaceFor st size)
  end.

(** Modelled from the spec: [Stats.FreeSpace] is not in src.  It is
    [Release]: it "atomically decrements both counters; never fails". *)
Definition FreeSpace (st : Stats) (size : Z) : Stats := freeSpace st size.

Definition newline : string := String (Ascii.ascii_of_nat 10) EmptyString.

(** [http.ResponseWriter]: the status line once it is written, and the
    body written so far. *)
Record ResponseWriter : Type := mkResponse {
  status : option Z;
  body : string
}.

Definition newResponse : ResponseWriter := mkResponse None "".

(** [WriteHeader]: only the first call sets the status. *)
Definition WriteHeader (code : Z) (w : ResponseWriter) : ResponseWriter :=
  match status w with
  | Some _ => w
  | None => mkResponse (Some code) (body w)
  end.

(** [Write]: a body written before any status implies [200 OK]. *)
Definition Write (text : string) (w : ResponseWriter) : ResponseWriter :=
  let w := WriteHeader 200 w in
  mkResponse (status w) (body w ++ text).

(** [http.Error]: the status, then the message and a newline. *)
Definition http_Error (w : ResponseWriter) (msg : string) (code : Z)
  : ResponseWriter :=
  Write (msg ++ newline) (WriteHeader code w).

Definition StatusBadRequest : Z := 400.
Definition StatusInternalServerError : Z := 500.
Definition StatusServiceUnavailable : Z := 503.

(** The request as the form parser sees it under the body limit that
    [http.MaxBytesReader] imposes: the value of the form field and, when
    [FormFile] finds the field, the outcome of reading the file. *)
Record Request : Type := mkRequest {
  FormValue : list Byte.byte;
  FormFile : option (result (list Byte.byte))
}.

(** [getContentFromForm] *)
Definition getContentFromForm (r : Request) : result (list Byte.byte) :=
  match FormValue r with
  | _ :: _ => Ok (FormValue r)
  | [] =>
      match FormFile r with
      | Some (Ok (b :: l)) => Ok (b :: l)
      | _ => Err (ErrOther "no paste provided")
      end
  end.

Section Handler.

Context {St : Type} `{Store St}.

(** The flags [siteURL] and [lifeTime], and the text of an error value
    ([err.Error()]). *)
Variable siteURL : string.
Variable lifeTime : Z.
Variable errorText : error -> string.

(** The handler's share of the world: the store, the quota state and the
    pending deletions (id, size, delay). *)
Record State : Type := mkState {
  st_store : St;
  st_stats : Stats;
  st_timers : list (ID * Z * Z)
}.

(** Modelled from the spec: [storage.SetupPasteDeletion] is not in src.
    "If expiration is disabled (lifetime = 0), no timer is armed"; "if
    remainingLifetime is non-positive and expiration is enabled, deletes
    immediately and releases quota synchronously" (the release is the one
    that follows a successful [Delete]); "otherwise schedules a one-shot
    callback". *)
Definition SetupPasteDeletion (x : State) (id : ID) (size : Z) (after : Z)
  : State :=
  if lifeTime =? 0 then x
  else if after <=? 0 then
    match sDelete id (st_store x) with
    | (None, store) => mkState store (FreeSpace (st_stats x) size) (st_timers x)
    | (Some _, store) => mkState store (st_stats x) (st_timers x)
    end
  else mkState (st_store x) (st_stats x) ((id, size, after) :: st_timers x).

(** [handlePost].  The calls to [log.Printf] write to the log only. *)
Definition handlePost (x : State) (w : ResponseWriter) (r : Request)
  : State * ResponseWriter :=
  match getContentFromForm r with
  | Err err => (x, http_Error w (errorText err) StatusBadRequest)
  | Ok content =>
      let size := Z.of_nat (length content) in
      let '(err, stats) := MakeSpaceFor (st_stats x) size in
      let w := match err with
               | Some err => http_Error w (errorText err) StatusServiceUnavailable
               | None => w
               end in
      let '(id, err, store) := sPut content (st_store x) in
      match err with
      | Some err =>
          (mkState store (FreeSpace stats size) (st_timers x),
           http_Error w (errorText err) StatusInternalServerError)
      | None =>
          (SetupPasteDeletion (mkState store stats (st_timers x)) id size lifeTime,
           Write (siteURL ++ "/" ++ id ++ newline) w)
      end
  end.

End Handler.

(** A store for the worked examples: it answers [Put] from a script of
    results and accepts every [Delete]. *)
#[global] Instance scripted : Store (list (ID * option error)) := {
  sPut := fun _ script =>
    match script with
    | [] => (zeroID, Some ExhaustionError, [])
    | (id, err) :: rest => (id, err, rest)
    end;
  sDelete := fun _ script => (None, script)
}.

Definition sampleError (e : error) : string :=
  match e with
  | ErrPasteNotFound => "paste not found"
  | QuotaExceeded => "quota exceeded"
  | ExhaustionError => "no unused id found"
  | Errno _ => "system call failed"
  | ErrOther msg => msg
  end.

End Handler.

(** ** Predicates of the statements *)

(** The file is past its lifetime, the lifetime being enabled. *)
Definition expired (lifeTime startTime : Z) (fileInfo : FileInfo) : Prop :=
  0 < lifeTime /\ ModTime fileInfo + lifeTime - startTime <= 0.

(** The reading of C5 as it is stated: every file that passes the
    expiration and the zero-size checks ends up registered, with a handle
    for its id. *)
Definition survivor_registered
    (lifeTime startTime : Z) (idFromPath : string -> result ID)
    (s : MmapStore) (path : string) (fileInfo : FileInfo) (env : RecoverEnv)
    (w : World) (id : ID) : Prop :=
  let '(_, s', w') :=
    Recover lifeTime startTime idFromPath s path fileInfo None env w in
  (exists c, cache s' !! id = Some c /\
             modTime c = ModTime fileInfo /\ size c = Size fileInfo) /\
  (exists p w'', Get s' id w' = (Ok p, w'')).

(** The reading of C6 as it is stated: the malformed entry is dealt with
    inside the callback, which discards it and reports no error, so that
    the walk goes on with the entries that follow. *)
Definition handled_locally
    (lifeTime startTime : Z) (idFromPath : string -> result ID)
    (e : WalkEntry) (rest : list WalkEntry) (s : MmapStore) (w : World) : Prop :=
  let '(err, s', w') :=
    Recover lifeTime startTime idFromPath s
            (we_path e) (we_info e) (we_err e) (we_env e) w in
  err = None /\
  fs w' !! we_path e = None /\
  setupSubdirs lifeTime startTime idFromPath (e :: rest) s w =
    setupSubdirs lifeTime startTime idFromPath rest s' w'.

(** The bytes the table's entries account for. *)
Definition total (m : gmap ID mmapCache) : Z :=
  map_fold (fun _ c acc => size c + acc) 0 m.

(** The size an operation brings fits an [int64] next to the byte
    ceiling; a [Delete] brings none. *)
Definition op_fits (maxS : Z) (o : op) : Prop :=
  match o with
  | OpPut data _ => Z.of_nat (length data) + maxS <= Int64.max
  | OpDelete _ _ => True
  | OpRecover _ fileInfo _ _ =>
      Int64.min <= Size fileInfo /\ Size fileInfo + maxS <= Int64.max
  end.

(** What every reachable store satisfies: the counters are machine
    integers, every entry has a positive size and a zero reader counter,
    and with a ceiling set the counter lies between what the table holds
    and the ceiling. *)
Definition store_inv (s : MmapStore) : Prop :=
  let st := stats s in
  Int64.in64 (number st) /\
  Int64.in64 (storage st) /\
  (forall id c, cache s !! id = Some c -> 0 < size c /\ reading c = 0) /\
  (0 < maxNumber st < Int64.max ->
     Z.of_nat (base.size (cache s)) <= number st <= maxNumber st) /\
  (0 < maxStorage st -> total (cache s) <= storage st <= maxStorage st).

(** ** Sample configuration for the worked examples *)

Module Sample.

Definition pathFromID (id : ID) : string := ("ab/" ++ id)%string.

(** A path is an identifier's when it is ["ab/"] followed by the
    identifier; anything else does not parse. *)
Definition idFromPath (p : string) : result ID :=
  if String.prefix "ab/" p then Ok (String.substring 3 (String.length p - 3) p)
  else Err (ErrOther "invalid path").

Definition foo : list Byte.byte := [Byte.x66; Byte.x6f; Byte.x6f].

Definition hour : Z := 3600 * 1000000000.

(** A store with room for [n] pastes and [b] bytes. *)
Definition store (n b : Z) : MmapStore :=
  mkStore ∅ "pastes" (mkStats 0 n 0 b).

End Sample.

(** ** Worked examples *)

Module Examples.

Import Sample.

Definition lifeTime : Z := 24 * hour.
Definition startTime : Z := 1000 * hour.

Definition id1 : ID := "a63d03b9"%string.
Definition id2 : ID := "0badcafe"%string.

(** One paste put into an empty store without ceilings. *)
Definition put1 : ID * option error * MmapStore * World :=
  Put pathFromID (store 0 0) foo (noPutFault [id1] startTime) emptyWorld.
Definition s1 : MmapStore := snd (fst put1).
Definition w1 : World := snd put1.

(** The same into a store that holds one paste at most: it is full. *)
Definition sFull : MmapStore :=
  snd (fst (Put pathFromID (store 1 0) foo (noPutFault [id1] startTime) emptyWorld)).

(** A file from an earlier run, written at time [t]. *)
Definition onDisk (name : string) (t : Z) (data : list Byte.byte) (w : World)
  : World :=
  set_fs w (<[name := mkFile data t]> (fs w)).

Definition fresh : FileInfo := mkFileInfo false (startTime - 12 * hour) 3.
Definition stale : FileInfo := mkFileInfo false (startTime - 25 * hour) 3.
Definition empty : FileInfo := mkFileInfo false (startTime - 12 * hour) 0.

Definition wFresh : World := onDisk (pathFromID id2) (ModTime fresh) foo w1.
Definition wStale : World := onDisk (pathFromID id2) (ModTime stale) foo emptyWorld.

(** A walk that meets a file whose name is no identifier before a good
    file. *)
Definition strayEntry : WalkEntry := mkWalkEntry "README" fresh None noRecoverFault.
Definition emptyEntry : WalkEntry :=
  mkWalkEntry (pathFromID id1) empty None noRecoverFault.
Definition goodEntry : WalkEntry :=
  mkWalkEntry (pathFromID id2) fresh None noRecoverFault.
Definition wWalk : World :=
  onDisk "README" (ModTime fresh) foo
    (onDisk (pathFromID id1) (ModTime empty) []
       (onDisk (pathFromID id2) (ModTime fresh) foo emptyWorld)).

Definition noMemory : error := Errno 12.

Definition someOps : list op :=
  [ OpPut foo (noPutFault [id1] startTime);
    OpRecover (pathFromID id2) fresh None noRecoverFault;
    OpDelete id1 noDeleteFault;
    OpPut foo (noPutFault [id1; id2] startTime) ].

(** A POST of ["foo"] when the quota is used up. *)
Definition postFoo : Handler.Request := Handler.mkRequest foo None.
Definition fullStats : Stats := mkStats 1 1 3 0.
Definition failing : @Handler.State (list (ID * option error)) :=
  Handler.mkState [(id1, Some noMemory)] fullStats [].
Definition accepting : @Handler.State (list (ID * option error)) :=
  Handler.mkState [(id1, None)] fullStats [].

End Examples.

(** ** The rest of the request layer *)

Module Http.

(** The [storage.Store] interface as [handleGet] uses it, with the
    [storage.Paste] handle that [Get] returns.  [None] is a panic. *)
Class Reading (St P : Type) : Type := {
  sGet : ID -> St -> result P * St;
  pClose : P -> St -> option St;
  pModTime : P -> St -> option Z
}.

(** [*http.Request], as far as the handlers look at it: the method, the
    path of the URL and the form. *)
Record Request : Type := mkRequest {
  Method : string;
  URLPath : string;
  Form : Handler.Request
}.

Definition invalidID : string := "invalid paste id".
Definition unknownAction : string := "unsupported action".

Definition StatusNotFound : Z := 404.

Section Handlers.

Context {St P : Type} `{Handler.Store St} `{Reading St P}.

(** The flags, the text of an error value, and the collaborators that are
    not in src or belong to the library: which paths are templates and
    what executing one writes, [storage.IDFromString], and what
    [http.ServeContent] writes for a paste.  [setHeaders] only sets header
    fields, which this model of the writer does not carry. *)
Variable siteURL : string.
Variable lifeTime : Z.
Variable errorText : error -> string.
Variable templates : string -> bool.
Variable ExecuteTemplate : Handler.ResponseWriter -> string -> Handler.ResponseWriter.
Variable IDFromString : string -> result ID.
Variable ServeContent :
  Handler.ResponseWriter -> Request -> Z -> P -> St -> Handler.ResponseWriter.

(** [handleGet].  The slice [r.URL.Path[1:]] panics on an empty path; the
    deferred [paste.Close()] runs after the content is served. *)
Definition handleGet (store : St) (w : Handler.ResponseWriter) (r : Request)
  : option (St * Handler.ResponseWriter) :=
  if templates (URLPath r) then Some (store, ExecuteTemplate w (URLPath r))
  else
    match URLPath r with
    | EmptyString => None
    | String _ rest =>
        match IDFromString rest with
        | Err _ => Some (store, Handler.http_Error w invalidID Handler.StatusBadRequest)
        | Ok id =>
            match sGet id store with
            | (Err ErrPasteNotFound, store) =>
                Some (store,
                      Handler.http_Error w (errorText ErrPasteNotFound) StatusNotFound)
            | (Err err, store) =>
                Some (store,
                      Handler.http_Error w (errorText err)
                                         Handler.StatusInternalServerError)
            | (Ok paste, store) =>
                match pModTime paste store with
                | None => None
                | Some t =>
                    let w := ServeContent w r t paste store in
                    match pClose paste store with
                    | None => None
                    | Some store => Some (store, w)
                    end
                end
            end
        end
    end.

(** [newHandler] *)
Definition newHandler (x : Handler.State) (w : Handler.ResponseWriter)
    (r : Request) : option (Handler.State * Handler.ResponseWriter) :=
  if decide (Method r = "GET"%string) then
    match handleGet (Handler.st_store x) w r with
    | None => None
    | Some (store, w) =>
        Some (Handler.mkState store (Handler.st_stats x) (Handler.st_timers x), w)
    end
  else if decide (Method r = "POST"%string) then
    Some (Handler.handlePost siteURL lifeTime errorText x w (Form r))
  else Some (x, Handler.http_Error w unknownAction Handler.StatusBadRequest).

End Handlers.

(** The mapped store of [storage_mmap.go] behind the reading interface:
    the store together with its world. *)
#[global] Instance mmapReading : Reading (MmapStore * World) MmapPaste := {
  sGet := fun id x => let '(r, w) := Get (fst x) id (snd x) in (r, (fst x, w));
  pClose := fun p x =>
    match Close p (snd x) with
    | Some w => Some (fst x, w)
    | None => None
    end;
  pModTime := fun p x => PasteModTime p (snd x)
}.

Section SetupStore.

(** What a constructor of the [storage] package returns, the three
    constructors, and the [nil, nil] of the last line. *)
Variable R : Type.
Variable NewFileStore : Stats -> Z -> string -> R.
Variable NewMmapStore : Stats -> Z -> string -> R.
Variable NewMemStore : R.
Variable nilStore : R.

(** The parameters of a storage type with their defaults; [None] for a
    type that is not in the table. *)
Definition storeParams (storageType : string) : option (list (string * string)) :=
  if decide (storageType = "fs"%string) then Some [("dir", "pastes")]%string
  else if decide (storageType = "fs-mmap"%string) then Some [("dir", "pastes")]%string
  else if decide (storageType = "mem"%string) then Some []
  else None.

(** The loop over the parameters: each takes the next argument while
    there is one. *)
Fixpoint assign (params : list (string * string)) (args : list string)
  : list (string * string) :=
  match params, args with
  | (k, _) :: params, a :: args => (k, a) :: assign params args
  | _, _ => params
  end.

(** [params[k]]: a missing key reads as the empty string. *)
Fixpoint param (k : string) (params : list (string * string)) : string :=
  match params with
  | [] => ""
  | (k', v) :: params => if decide (k' = k) then v else param k params
  end.

(** [setupStore]; an error of its own is its message. *)
Definition setupStore (stats : Stats) (lifeTime : Z) (storageType : string)
    (args : list string) : string + R :=
  match storeParams storageType with
  | None => inl ("unknown storage type '" ++ storageType ++ "'")%string
  | Some params =>
      if (length params <? length args)%nat then
        inl ("too many arguments given for " ++ storageType)%string
      else
        let params := assign params args in
        if decide (storageType = "fs"%string) then
          inr (NewFileStore stats lifeTime (param "dir" params))
        else if decide (storageType = "fs-mmap"%string) then
          inr (NewMmapStore stats lifeTime (param "dir" params))
        else if decide (storageType = "mem"%string) then inr NewMemStore
        else inr nilStore
  end.

End SetupStore.

End Http.

(** ** Invariants of reachable states *)

(** Every entry of the table has a zero reader counter, a positive size
    and a mapping that is live, below the next fresh address and not
    shared with another entry. *)
Definition mapped (s : MmapStore) (w : World) : Prop :=
  (forall id c, cache s !! id = Some c ->
     reading c = 0 /\ 0 < size c /\ slen (mmap c) <> 0%nat /\
     (addr (mmap c) < brk w)%N /\ is_Some (vm w !! addr (mmap c))) /\
  (forall id1 id2 c1 c2,
     id1 <> id2 -> cache s !! id1 = Some c1 -> cache s !! id2 = Some c2 ->
     addr (mmap c1) <> addr (mmap c2)).

(** Every entry of the table has its deletion pending, with the lifetime
    that was left to it when the process started. *)
Definition scheduled (lifeTime startTime : Z) (s : MmapStore) (w : World) : Prop :=
  forall id c, cache s !! id = Some c ->
    (id, Sub (modTime c + lifeTime) startTime) ∈ timers w.

(** The [FileInfo] is the one of the file: its size is the length of the
    file and its modification time the file's. *)
Definition describes (fileInfo : FileInfo) (f : File) : Prop :=
  Size fileInfo = Z.of_nat (length (f_content f)) /\
  ModTime fileInfo = f_modTime f.

(** The region of every entry of the table covers the entry's slice, and
    the slice has as many bytes as the entry's size says. *)
Definition covered (s : MmapStore) (w : World) : Prop :=
  forall id c, cache s !! id = Some c ->
    Z.of_nat (slen (mmap c)) = size c /\
    exists data, vm w !! addr (mmap c) = Some data /\
                 (slen (mmap c) <= length data)%nat.

Section Described.

Variable lifeTime : Z.
Variable startTime : Z.
Variable idFromPath : string -> result ID.
Variable pathFromID : ID -> string.

(** Along the run of the operations, every [Recover] is handed the
    [FileInfo] of the file that is on disk at that moment, as the
    directory walk does. *)
Fixpoint truthful (ops : list op) (s : MmapStore) (w : World) : Prop :=
  match ops with
  | [] => True
  | o :: rest =>
      match o with
      | OpRecover path fileInfo _ _ =>
          forall f, fs w !! path = Some f -> describes fileInfo f
      | _ => True
      end /\
      let '(s', w', live) := step lifeTime startTime idFromPath pathFromID o s w in
      if live then truthful rest s' w' else True
  end.

(** The same along a walk. *)
Fixpoint walked (entries : list WalkEntry) (s : MmapStore) (w : World) : Prop :=
  match entries with
  | [] => True
  | x :: rest =>
      (forall f, fs w !! we_path x = Some f -> describes (we_info x) f) /\
      match Recover lifeTime startTime idFromPath s
                    (we_path x) (we_info x) (we_err x) (we_env x) w with
      | (None, s', w') => walked rest s' w'
      | (Some _, _, _) => True
      end
  end.

End Described.

(** Every entry of the table was registered for one of the walked
    entries, and carries that entry's path and the modification time and
    size of its [FileInfo]. *)
Definition recovered (idFromPath : string -> result ID)
    (entries : list WalkEntry) (s : MmapStore) : Prop :=
  forall id c, cache s !! id = Some c ->
    exists x, x ∈ entries /\
              idFromPath (we_path x) = Ok id /\
              path c = we_path x /\
              modTime c = ModTime (we_info x) /\
              size c = Size (we_info x).

(** The operation neither deletes [id] nor recovers a file of [id]. *)
Definition leaves (idFromPath : string -> result ID) (id : ID) (o : op) : Prop :=
  match o with
  | OpPut _ _ => True
  | OpDelete id' _ => id' <> id
  | OpRecover path _ _ _ => idFromPath path <> Ok id
  end.

(** ** More worked examples *)

Module MoreExamples.

Import Sample Examples.

(** The mapping fails for want of memory. *)
Definition noMapping : PutEnv :=
  mkPutEnv [id1] startTime None None (Some noMemory).

(** The store of [s1] takes a second paste: the first draw is taken. *)
Definition secondPut : PutEnv := noPutFault [id1; id2] startTime.
Definition s2 : MmapStore := snd (fst (Put pathFromID s1 foo secondPut w1)).
Definition w2 : World := snd (Put pathFromID s1 foo secondPut w1).

Definition laterOps : list op :=
  [ OpRecover (pathFromID id2) fresh None noRecoverFault;
    OpPut foo (noPutFault [id1; id2] startTime);
    OpDelete id2 noDeleteFault ].

Definition emptyPost : Handler.Request := Handler.mkRequest [] (Some (Ok [])).
Definition roomyStats : Stats := mkStats 0 1 0 0.
Definition willFail : @Handler.State (list (ID * option error)) :=
  Handler.mkState [(id1, Some noMemory)] roomyStats [].
Definition willAccept : @Handler.State (list (ID * option error)) :=
  Handler.mkState [(id1, None)] roomyStats [].

(** The scripted store holds no paste that could be read. *)
#[global] Instance scriptedReading : Http.Reading (list (ID * option error)) unit := {
  Http.sGet := fun _ script => (Err ErrPasteNotFound, script);
  Http.pClose := fun _ script => Some script;
  Http.pModTime := fun _ _ => Some 0
}.

(** Collaborators of [handleGet]: the only template is the front page,
    an identifier is a string of eight characters, and serving writes the
    word ["paste"]. *)
Definition frontPage (p : string) : bool := String.eqb p "/".
Definition render (w : Handler.ResponseWriter) (name : string)
  : Handler.ResponseWriter :=
  Handler.Write "pastecat" w.
Definition eightChars (str : string) : result ID :=
  if (String.length str =? 8)%nat then Ok str else Err (ErrOther "invalid id").
Definition serve {St P : Type} (w : Handler.ResponseWriter) (r : Http.Request)
    (t : Z) (p : P) (x : St) : Handler.ResponseWriter :=
  Handler.Write "paste" w.

Definition getPaste : Http.Request := Http.mkRequest "GET" "/a63d03b9" emptyPost.
Definition getOther : Http.Request := Http.mkRequest "GET" "/0badcafe" emptyPost.
Definition getNonsense : Http.Request := Http.mkRequest "GET" "/favicon.ico" emptyPost.
Definition putPaste : Http.Request := Http.mkRequest "PUT" "/a63d03b9" emptyPost.

End MoreExamples.

(** * Theorems *)

(** ** Mappings *)

Lemma backing_exact (page : nat) (f : File) :
  take (length (f_content f)) (OS.backing page f) = f_content f.
Proof. unfold OS.backing. apply take_app_length. Qed.

(** A slice that the region covers reads in full. *)
Lemma load_all (b : slice) (w : World) (data : list Byte.byte) :
  vm w !! addr b = Some data ->
  (slen b <= length data)%nat ->
  OS.load b 0 (slen b) w = Some (take (slen b) data).
Proof.
  intros Hd Hlen. unfold OS.load. rewrite Nat.sub_0_r, Nat.min_id.
  destruct (slen b) as [|k] eqn:Hk; [reflexivity|].
  cbn [Nat.eqb]. rewrite Hd.
  destruct (Nat.leb_spec (0 + S k) (length data)); [|cbn in *; lia].
  now rewrite drop_0.
Qed.

(** Nothing reads through a region that is gone. *)
Lemma load_unmapped (b : slice) (off n : nat) (w : World) :
  vm w !! addr b = None ->
  n <> 0%nat -> (off < slen b)%nat ->
  OS.load b off n w = None.
Proof.
  intros Hd Hn Hoff. unfold OS.load.
  destruct (Nat.eqb_spec (Nat.min n (slen b - off)) 0) as [Hz|_]; [lia|].
  now rewrite Hd.
Qed.

(** ** Lookups that miss *)

Lemma Get_absent (s : MmapStore) (id : ID) (w : World) :
  cache s !! id = None -> Get s id w = (Err ErrPasteNotFound, w).
Proof. intros H. unfold Get. now rewrite H. Qed.

Lemma Get_present (s : MmapStore) (id : ID) (w : World) (c : mmapCache) :
  cache s !! id = Some c ->
  Get s id w =
    (Ok (mkPaste (NewReader (mmap c)) (hp w)),
     set_heap w (<[hp w := set_reading c (reading c + 1)]> (heap w)) (N.succ (hp w))).
Proof. intros H. unfold Get. now rewrite H. Qed.

(** What a handle made by [Get] reads depends on the entry and on the
    bytes of its region only; it reads in full when the region covers the
    slice. *)
Lemma Get_reads_region (s : MmapStore) (id : ID) (w : World) (c : mmapCache)
    (data : list Byte.byte) :
  cache s !! id = Some c ->
  vm w !! addr (mmap c) = Some data ->
  (slen (mmap c) <= length data)%nat ->
  exists p w',
    Get s id w = (Ok p, w') /\
    ReadAll p w' = Some (take (slen (mmap c)) data) /\
    PasteModTime p w' = Some (modTime c) /\
    PasteSize p w' = Some (size c) /\
    reading <$> heap w' !! pcache p = Some (reading c + 1).
Proof.
  intros Hc Hd Hlen. eexists _, _. split; [exact (Get_present s id w c Hc)|].
  unfold ReadAll, Read, PasteModTime, PasteSize.
  cbn [content r_s r_i pcache NewReader].
  rewrite (load_all (mmap c) _ data) by (cbn; assumption).
  cbn. rewrite !lookup_insert_eq. now cbn.
Qed.

Lemma Delete_absent (s : MmapStore) (id : ID) (env : DeleteEnv) (w : World) :
  cache s !! id = None -> Delete s id env w = Returns (Some ErrPasteNotFound) s w.
Proof. intros H. unfold Delete. now rewrite H. Qed.

(** Whatever way a [Delete] that found its entry returns, the entry is
    gone from the table. *)
Lemma Delete_returns_removes (s s' : MmapStore) (id : ID) (env : DeleteEnv)
    (w w' : World) (c : mmapCache) (r : option error) :
  cache s !! id = Some c ->
  Delete s id env w = Returns r s' w' ->
  cache s' = delete id (cache s) /\ dir s' = dir s.
Proof.
  intros Hc. unfold Delete. rewrite Hc.
  destruct (0 <? reading c); [discriminate|].
  destruct (OS.Munmap _ _ _) as [[e1|] w1].
  - intros [= <- <- <-]. auto.
  - destruct (OS.Remove _ _ _) as [[e2|] w2]; intros [= <- <- <-]; auto.
Qed.

(** A [Delete] that found its entry and returned an error left the quota
    state as it was. *)
Lemma Delete_error_keeps_stats (s s' : MmapStore) (id : ID) (env : DeleteEnv)
    (w w' : World) (c : mmapCache) (e : error) :
  cache s !! id = Some c ->
  Delete s id env w = Returns (Some e) s' w' ->
  stats s' = stats s.
Proof.
  intros Hc. unfold Delete. rewrite Hc.
  destruct (0 <? reading c); [discriminate|].
  destruct (OS.Munmap _ _ _) as [[e1|] w1].
  - now intros [= <- <- <-].
  - destruct (OS.Remove _ _ _) as [[e2|] w2]; [|discriminate].
    now intros [= <- <- <-].
Qed.

(** The error of such a [Delete] is the one of the unmapping, or else the
    one of the removal of the file. *)
Lemma Delete_error_origin (s s' : MmapStore) (id : ID) (env : DeleteEnv)
    (w w' : World) (c : mmapCache) (e : error) :
  cache s !! id = Some c ->
  Delete s id env w = Returns (Some e) s' w' ->
  OS.Munmap (mmap c) (munmap_fault env) w = (Some e, w') \/
  (exists w1, OS.Munmap (mmap c) (munmap_fault env) w = (None, w1) /\
              OS.Remove (path c) (remove_fault env) w1 = (Some e, w')).
Proof.
  intros Hc. unfold Delete. rewrite Hc.
  destruct (0 <? reading c); [discriminate|].
  destruct (OS.Munmap _ _ _) as [[e1|] w1].
  - intros [= <- <- <-]. now left.
  - destruct (OS.Remove _ _ _) as [[e2|] w2] eqn:Hr; [|discriminate].
    intros [= <- <- <-]. right. now exists w1.
Qed.

(** C8: [Delete] on an id that has no live object returns
    [ErrPasteNotFound] and changes nothing: the store, and with it the two
    quota counters, and the world are the ones it was called with. *)
Theorem Delete_missing_NotFound_no_quota_change
    (s : MmapStore) (id : ID) (env : DeleteEnv) (w : World) :
  cache s !! id = None ->
  Delete s id env w = Returns (Some ErrPasteNotFound) s w /\
  (forall err s' w', Delete s id env w = Returns err s' w' ->
     number (stats s') = number (stats s) /\
     storage (stats s') = storage (stats s)).
Proof.
  intros H. rewrite (Delete_absent s id env w H). split; [reflexivity|].
  now intros err s' w' [= <- <- <-].
Qed.

(** The example of the claim: once a [Delete] of [id] has returned, in
    whatever way, another [Delete] of [id] finds nothing. *)
Lemma Delete_twice_NotFound (s s1 : MmapStore) (id : ID) (env env2 : DeleteEnv)
    (w w1 w2 : World) (r : option error) :
  Delete s id env w = Returns r s1 w1 ->
  Delete s1 id env2 w2 = Returns (Some ErrPasteNotFound) s1 w2.
Proof.
  intros H. apply Delete_absent.
  destruct (cache s !! id) as [c|] eqn:Hc.
  - destruct (Delete_returns_removes _ _ _ _ _ _ _ _ Hc H) as [-> _].
    apply lookup_delete_eq.
  - rewrite (Delete_absent s id env w Hc) in H. now injection H as <- <- <-.
Qed.

(** An id without an entry stays without one through any [Delete]. *)
Lemma Delete_keeps_absent (s s' : MmapStore) (id id' : ID) (env : DeleteEnv)
    (w w' : World) (r : option error) :
  cache s !! id = None ->
  Delete s id' env w = Returns r s' w' ->
  cache s' !! id = None.
Proof.
  intros Hid H. destruct (cache s !! id') as [c|] eqn:Hc.
  - destruct (Delete_returns_removes _ _ _ _ _ _ _ _ Hc H) as [-> _].
    rewrite lookup_delete. now case_decide.
  - rewrite (Delete_absent s id' env w Hc) in H. now injection H as <- <- <-.
Qed.

(** C9: a [Delete] that finds the entry and fails, which is a failure of
    the unmapping or of the removal of the file, returns that error with
    the entry already out of the table and the quota state untouched; from
    then on [Get] and [Delete] of that id return [ErrPasteNotFound], and
    such a [Delete] leaves the store as it is, so the reservation stays. *)
Theorem Delete_failure_loses_entry_keeps_quota
    (s s' : MmapStore) (id : ID) (env : DeleteEnv) (w w' : World)
    (c : mmapCache) (e : error) :
  cache s !! id = Some c ->
  Delete s id env w = Returns (Some e) s' w' ->
  (OS.Munmap (mmap c) (munmap_fault env) w = (Some e, w') \/
   (exists w1, OS.Munmap (mmap c) (munmap_fault env) w = (None, w1) /\
               OS.Remove (path c) (remove_fault env) w1 = (Some e, w'))) /\
  cache s' = delete id (cache s) /\
  stats s' = stats s /\
  (forall w2, Get s' id w2 = (Err ErrPasteNotFound, w2)) /\
  (forall env2 w2, Delete s' id env2 w2 = Returns (Some ErrPasteNotFound) s' w2).
Proof.
  intros Hc H.
  destruct (Delete_returns_removes _ _ _ _ _ _ _ _ Hc H) as [Hcache _].
  assert (Hgone : cache s' !! id = None)
    by (rewrite Hcache; apply lookup_delete_eq).
  split; [exact (Delete_error_origin _ _ _ _ _ _ _ _ Hc H)|].
  split; [exact Hcache|].
  split; [exact (Delete_error_keeps_stats _ _ _ _ _ _ _ _ Hc H)|].
  split.
  - intros w2. now apply Get_absent.
  - intros env2 w2. now apply Delete_absent.
Qed.

(** ** What a successful [Put] did *)

Section PutFacts.

Variable pathFromID : ID -> string.

(** The store and the world after a [Put] that returned no error. *)
Lemma Put_success_inv (s s' : MmapStore) (data : list Byte.byte)
    (env : PutEnv) (w w' : World) (id : ID) :
  Put pathFromID s data env w = (id, None, s', w') ->
  let n := Z.of_nat (length data) in
  let region := mkSlice (brk w) (length data) in
  hasSpaceFor (stats s) n = None /\
  cache s !! id = None /\
  0 < n /\
  s' = mkStore (<[id := mkCache 0 (now env) (pathFromID id) region n]> (cache s))
               (dir s) (makeSpaceFor (stats s) n) /\
  w' = set_vm (set_fs w (<[pathFromID id := mkFile data (now env)]> (fs w)))
              (<[brk w := data]> (vm w)) (N.succ (brk w)).
Proof.
  unfold Put. cbv zeta.
  destruct (hasSpaceFor _ _) eqn:Hq; [discriminate|].
  unfold randomID.
  destruct (List.find _ _) as [id0|] eqn:Hfind; [|discriminate].
  apply List.find_some in Hfind as [_ Havail].
  apply bool_decide_eq_true in Havail.
  unfold writeNewFile.
  destruct (write_fault env); [discriminate|].
  unfold getMmap, OS.Mmap, OS.Open.
  destruct (Z.of_nat (length data) <=? 0) eqn:Hlen; [discriminate|].
  apply Z.leb_gt in Hlen.
  destruct (open_fault env); [discriminate|].
  cbn [fs set_fs]. rewrite lookup_insert_eq.
  destruct (mmap_fault env); [discriminate|].
  intros [= <- <- <-].
  pose proof (backing_exact (pagesize w) (mkFile data (now env))) as Hb.
  cbn [f_content] in Hb. cbn [pagesize set_fs]. rewrite Nat2Z.id, Hb.
  repeat split; auto.
Qed.

(** With room in the quota, a free candidate among the draws, content
    that is not empty and an operating system that does not fail, [Put]
    succeeds. *)
Lemma Put_succeeds (s : MmapStore) (data : list Byte.byte) (env : PutEnv)
    (w : World) (id : ID) :
  data <> [] ->
  hasSpaceFor (stats s) (Z.of_nat (length data)) = None ->
  List.find (fun i : ID => bool_decide (cache s !! i = None)) (draws env) = Some id ->
  write_fault env = None -> open_fault env = None -> mmap_fault env = None ->
  exists s' w', Put pathFromID s data env w = (id, None, s', w').
Proof.
  intros Hne Hq Hfind Hw Ho Hm.
  unfold Put. cbv zeta. rewrite Hq. unfold randomID. rewrite Hfind.
  unfold writeNewFile. rewrite Hw.
  unfold getMmap, OS.Mmap, OS.Open.
  destruct (Z.of_nat (length data) <=? 0) eqn:Hlen.
  - apply Z.leb_le in Hlen. destruct data; [contradiction|]. cbn in Hlen. lia.
  - rewrite Ho. cbn [fs set_fs]. rewrite lookup_insert_eq, Hm. eauto.
Qed.

(** Reading a handle that [Get] made for the entry [Put] inserted. *)
Lemma read_after_Put (s s' : MmapStore) (data : list Byte.byte)
    (env : PutEnv) (w w' : World) (id : ID) :
  Put pathFromID s data env w = (id, None, s', w') ->
  exists p w'',
    Get s' id w' = (Ok p, w'') /\
    ReadAll p w'' = Some data /\
    PasteSize p w'' = Some (Z.of_nat (length data)) /\
    PasteModTime p w'' = Some (now env).
Proof.
  intros H. apply Put_success_inv in H as (_ & _ & _ & -> & ->).
  match goal with
  | |- exists p w'', Get ?s0 ?i ?w0 = _ /\ _ =>
      destruct (Get_reads_region s0 i w0 _ data (lookup_insert_eq _ _ _)
                  (lookup_insert_eq _ _ _))
        as (p & w'' & Hg & Hr & Ht & Hs & _); [cbn; lia|]
  end.
  exists p, w''. cbn in Hr. rewrite firstn_all in Hr. auto.
Qed.

End PutFacts.

(** C4: for content that is not empty, a [Put] that succeeds and returns
    [id], followed by [Get id], gives a handle whose full read is exactly
    the content that was put. *)
Theorem Put_Get_roundtrip
    (pathFromID : ID -> string) (s s' : MmapStore) (data : list Byte.byte)
    (env : PutEnv) (w w' : World) (id : ID) :
  data <> [] ->
  Put pathFromID s data env w = (id, None, s', w') ->
  exists p w'', Get s' id w' = (Ok p, w'') /\ ReadAll p w'' = Some data.
Proof.
  intros _ H.
  destruct (read_after_Put pathFromID _ _ _ _ _ _ _ H) as (p & w'' & Hg & Hr & _).
  now exists p, w''.
Qed.

(** ** Recovery *)

Lemma Sub_nonpos (t u : Z) : Sub t u <= 0 <-> t - u <= 0.
Proof.
  unfold Sub, Int64.min, Int64.max. cbv zeta.
  destruct (Z.ltb_spec (t - u) (- 2 ^ 63)); [lia|].
  destruct (Z.ltb_spec (2 ^ 63 - 1) (t - u)); lia.
Qed.

Lemma Sub_exact (t u : Z) : Int64.in64 (t - u) -> Sub t u = t - u.
Proof.
  unfold Sub, Int64.in64, Int64.min, Int64.max. cbv zeta. intros H.
  destruct (Z.ltb_spec (t - u) (- 2 ^ 63)); [lia|].
  destruct (Z.ltb_spec (2 ^ 63 - 1) (t - u)); lia.
Qed.

Section RecoverFacts.

Variable lifeTime : Z.
Variable startTime : Z.
Variable idFromPath : string -> result ID.

Local Abbreviation Recover := (Recover lifeTime startTime idFromPath).
Local Abbreviation setupSubdirs := (setupSubdirs lifeTime startTime idFromPath).
Local Abbreviation expired := (expired lifeTime startTime).

Lemma expired_test (fileInfo : FileInfo) :
  (0 <? lifeTime) && (Sub (ModTime fileInfo + lifeTime) startTime <=? 0) = true
  <-> expired fileInfo.
Proof.
  unfold expired.
  rewrite andb_true_iff, Z.ltb_lt, Z.leb_le, Sub_nonpos. reflexivity.
Qed.

(** An entry that is expired or empty only reaches [os.Remove]. *)
Lemma Recover_discard (s : MmapStore) (path : string) (fileInfo : FileInfo)
    (env : RecoverEnv) (w : World) (id : ID) :
  IsDir fileInfo = false ->
  idFromPath path = Ok id ->
  expired fileInfo \/ Size fileInfo = 0 ->
  Recover s path fileInfo None env w =
    (fst (OS.Remove path (rec_remove_fault env) w), s,
     snd (OS.Remove path (rec_remove_fault env) w)).
Proof.
  intros Hd Hid H. unfold Recover. rewrite Hd, Hid. cbn [orb bool_decide].
  rewrite bool_decide_eq_false_2 by (intros Hn; now apply Hn).
  cbv zeta.
  destruct ((0 <? lifeTime) && _) eqn:Hexp.
  - now destruct (OS.Remove _ _ _).
  - destruct H as [H | H].
    + apply expired_test in H. congruence.
    + rewrite H. cbn. now destruct (OS.Remove _ _ _).
Qed.

Lemma Remove_keeps_rest (name : string) (fault : option error) (w : World) :
  let w' := snd (OS.Remove name fault w) in
  vm w' = vm w /\ heap w' = heap w /\ timers w' = timers w.
Proof.
  unfold OS.Remove. destruct fault; [cbn; auto|].
  destruct (fs w !! name); cbn; auto.
Qed.

Lemma Remove_existing (name : string) (w : World) :
  is_Some (fs w !! name) ->
  OS.Remove name None w = (None, set_fs w (delete name (fs w))).
Proof. intros [f Hf]. unfold OS.Remove. now rewrite Hf. Qed.

(** An entry whose name does not parse: the error goes back to the walk
    and nothing is touched. *)
Lemma Recover_unparsable (s : MmapStore) (path : string) (fileInfo : FileInfo)
    (env : RecoverEnv) (w : World) (err : error) :
  IsDir fileInfo = false ->
  idFromPath path = Err err ->
  Recover s path fileInfo None env w = (Some err, s, w).
Proof.
  intros Hd Hid. unfold Recover. rewrite Hd, Hid. cbn [orb].
  now rewrite bool_decide_eq_false_2 by (intros Hn; now apply Hn).
Qed.

(** An entry that passes both checks, fits the quota and can be mapped. *)
Lemma Recover_register (s : MmapStore) (path : string) (fileInfo : FileInfo)
    (env : RecoverEnv) (w : World) (id : ID) (f : File) :
  IsDir fileInfo = false ->
  idFromPath path = Ok id ->
  ~ expired fileInfo ->
  Size fileInfo <> 0 ->
  hasSpaceFor (stats s) (Size fileInfo) = None ->
  fs w !! path = Some f ->
  Size fileInfo = Z.of_nat (length (f_content f)) ->
  rec_open_fault env = None ->
  rec_mmap_fault env = None ->
  let lifeLeft := Sub (ModTime fileInfo + lifeTime) startTime in
  let region := mkSlice (brk w) (length (f_content f)) in
  let entry := mkCache 0 (ModTime fileInfo) path region (Size fileInfo) in
  Recover s path fileInfo None env w =
    (None,
     mkStore (<[id := entry]> (cache s)) (dir s)
             (makeSpaceFor (stats s) (Size fileInfo)),
     setupPasteDeletion lifeTime
       (set_vm w (<[brk w := f_content f]> (vm w)) (N.succ (brk w)))
       id lifeLeft).
Proof.
  intros Hd Hid Hexp Hsz Hq Hf Hlen Ho Hm. cbv zeta.
  unfold Recover. rewrite Hd, Hid. cbn [orb].
  rewrite bool_decide_eq_false_2 by (intros Hn; now apply Hn).
  cbv zeta.
  destruct ((0 <? lifeTime) && _) eqn:Hexp'.
  { apply expired_test in Hexp'. contradiction. }
  apply Z.eqb_neq in Hsz. rewrite Hsz, Hq.
  unfold getMmap, OS.Mmap, OS.Open. rewrite Ho, Hf, Hm.
  apply Z.eqb_neq in Hsz.
  destruct (Size fileInfo <=? 0) eqn:Hpos.
  { apply Z.leb_le in Hpos. lia. }
  rewrite Hlen, Nat2Z.id, backing_exact. reflexivity.
Qed.

End RecoverFacts.

(** C3: in [Recover], a file that is older than [startTime - lifeTime]
    with the lifetime enabled, or that has no bytes, goes to [os.Remove]
    and nowhere else: the store (table and quota state) and the pending
    timers are as before, the file is gone when the removal meets no
    fault, and [Get] on its id finds nothing (the id having had no entry
    before). *)
Theorem Recover_expired_or_empty_is_removed_unregistered
    (lifeTime startTime : Z) (idFromPath : string -> result ID)
    (s : MmapStore) (path : string) (fileInfo : FileInfo) (env : RecoverEnv)
    (w : World) (id : ID) :
  IsDir fileInfo = false ->
  idFromPath path = Ok id ->
  (0 < lifeTime /\ ModTime fileInfo < startTime - lifeTime) \/ Size fileInfo = 0 ->
  exists e w',
    Recover lifeTime startTime idFromPath s path fileInfo None env w = (e, s, w') /\
    (e, w') = OS.Remove path (rec_remove_fault env) w /\
    timers w' = timers w /\ vm w' = vm w /\
    (rec_remove_fault env = None -> is_Some (fs w !! path) ->
       e = None /\ fs w' !! path = None) /\
    (cache s !! id = None -> forall w2, Get s id w2 = (Err ErrPasteNotFound, w2)).
Proof.
  intros Hd Hid H.
  assert (H' : expired lifeTime startTime fileInfo \/ Size fileInfo = 0).
  { destruct H as [[H1 H2]|H]; [left; unfold expired; lia | now right]. }
  exists (fst (OS.Remove path (rec_remove_fault env) w)),
         (snd (OS.Remove path (rec_remove_fault env) w)).
  split; [now apply Recover_discard with (id := id)|].
  split; [now destruct (OS.Remove _ _ _)|].
  destruct (Remove_keeps_rest path (rec_remove_fault env) w) as (Hv & _ & Ht).
  split; [exact Ht|]. split; [exact Hv|]. split.
  - intros -> Hf. rewrite (Remove_existing _ _ Hf). cbn.
    split; [reflexivity | apply lookup_delete_eq].
  - intros Hc w2. now apply Get_absent.
Qed.

(** A survivor that fits the quota and is opened and mapped without
    fault is registered. *)
Lemma Recover_survivor_registers
    (lifeTime startTime : Z) (idFromPath : string -> result ID)
    (s : MmapStore) (path : string) (fileInfo : FileInfo) (env : RecoverEnv)
    (w : World) (id : ID) (f : File) :
  IsDir fileInfo = false ->
  idFromPath path = Ok id ->
  ~ (0 < lifeTime /\ ModTime fileInfo + lifeTime - startTime <= 0) ->
  Size fileInfo <> 0 ->
  hasSpaceFor (stats s) (Size fileInfo) = None ->
  fs w !! path = Some f ->
  Size fileInfo = Z.of_nat (length (f_content f)) ->
  rec_open_fault env = None ->
  rec_mmap_fault env = None ->
  let lifeLeft := Sub (ModTime fileInfo + lifeTime) startTime in
  exists s' w',
    Recover lifeTime startTime idFromPath s path fileInfo None env w = (None, s', w') /\
    cache s' !! id =
      Some (mkCache 0 (ModTime fileInfo) path
                    (mkSlice (brk w) (length (f_content f))) (Size fileInfo)) /\
    stats s' = makeSpaceFor (stats s) (Size fileInfo) /\
    vm w' !! brk w = Some (f_content f) /\
    (0 < lifeTime ->
       timers w' = (id, lifeLeft) :: timers w /\
       0 < lifeLeft /\
       (Int64.in64 (ModTime fileInfo + lifeTime - startTime) ->
          lifeLeft = ModTime fileInfo + lifeTime - startTime)) /\
    (lifeTime = 0 -> timers w' = timers w) /\
    (exists p w'',
       Get s' id w' = (Ok p, w'') /\
       ReadAll p w'' = Some (f_content f) /\
       PasteModTime p w'' = Some (ModTime fileInfo) /\
       PasteSize p w'' = Some (Size fileInfo)).
Proof.
  intros Hd Hid Hexp Hsz Hq Hf Hlen Ho Hm lifeLeft.
  eexists _, _. split.
  { now apply Recover_register with (id := id) (f := f). }
  cbn [cache stats]. fold lifeLeft.
  assert (Hvm : forall w0 : World,
            vm (setupPasteDeletion lifeTime w0 id lifeLeft) = vm w0 /\
            heap (setupPasteDeletion lifeTime w0 id lifeLeft) = heap w0 /\
            hp (setupPasteDeletion lifeTime w0 id lifeLeft) = hp w0).
  { intros w0. unfold setupPasteDeletion. now destruct (lifeTime =? 0). }
  split; [apply lookup_insert_eq|]. split; [reflexivity|].
  split. { rewrite (proj1 (Hvm _)). cbn. apply lookup_insert_eq. }
  split.
  { intros Hpos. split; [|split].
    - unfold setupPasteDeletion.
      destruct (Z.eqb_spec lifeTime 0); [lia | reflexivity].
    - subst lifeLeft.
      destruct (Z.le_gt_cases (Sub (ModTime fileInfo + lifeTime) startTime) 0)
        as [Hle|Hgt]; [|lia].
      apply Sub_nonpos in Hle. exfalso. apply Hexp. split; [exact Hpos | exact Hle].
    - intros Hin. subst lifeLeft. now apply Sub_exact. }
  split. { intros ->. reflexivity. }
  match goal with
  | |- exists p w'', Get ?s0 ?i ?w0 = _ /\ _ =>
      destruct (Get_reads_region s0 i w0 _ (f_content f) (lookup_insert_eq _ _ _))
        as (p & w'' & Hg & Hr & Ht & Hs & _)
  end.
  { rewrite (proj1 (Hvm _)). cbn. apply lookup_insert_eq. }
  { cbn. lia. }
  exists p, w''. cbn in Hr. rewrite firstn_all in Hr. auto.
Qed.

(** A survivor that does not fit the quota is refused: [Recover] returns
    the error of the check and touches nothing. *)
Lemma Recover_survivor_refused
    (lifeTime startTime : Z) (idFromPath : string -> result ID)
    (s : MmapStore) (path : string) (fileInfo : FileInfo) (env : RecoverEnv)
    (w : World) (id : ID) (err : error) :
  IsDir fileInfo = false ->
  idFromPath path = Ok id ->
  ~ (0 < lifeTime /\ ModTime fileInfo + lifeTime - startTime <= 0) ->
  Size fileInfo <> 0 ->
  hasSpaceFor (stats s) (Size fileInfo) = Some err ->
  Recover lifeTime startTime idFromPath s path fileInfo None env w = (Some err, s, w).
Proof.
  intros Hd Hid Hexp Hsz Hq. unfold Recover. rewrite Hd, Hid. cbn [orb].
  rewrite bool_decide_eq_false_2 by (intros Hn; now apply Hn).
  cbv zeta.
  destruct ((0 <? lifeTime) && _) eqn:Hexp'.
  { apply expired_test in Hexp'. contradiction. }
  apply Z.eqb_neq in Hsz. now rewrite Hsz, Hq.
Qed.

(** C5, amended: a file that passes both checks is registered exactly
    when it fits the quota.  When the quota check fails, [Recover] returns
    the error of the check and registers nothing: the store and the world
    are as before.  When it passes and the file is opened and mapped
    without fault, the region holds the file's bytes, the entry carries
    the file's modification time and size, the quota is charged, and the
    deletion is scheduled on the world that already has the mapping, with
    delay [modTime + lifeTime - startTime] (a timer is armed when the
    lifetime is enabled, none when it is zero); [Get] on the id then
    succeeds and reads the file's bytes. *)
Theorem Recover_survivor_registered_or_refused
    (lifeTime startTime : Z) (idFromPath : string -> result ID)
    (s : MmapStore) (path : string) (fileInfo : FileInfo) (env : RecoverEnv)
    (w : World) (id : ID) :
  IsDir fileInfo = false ->
  idFromPath path = Ok id ->
  ~ (0 < lifeTime /\ ModTime fileInfo + lifeTime - startTime <= 0) ->
  Size fileInfo <> 0 ->
  (forall err,
     hasSpaceFor (stats s) (Size fileInfo) = Some err ->
     Recover lifeTime startTime idFromPath s path fileInfo None env w =
       (Some err, s, w)) /\
  (hasSpaceFor (stats s) (Size fileInfo) = None ->
   forall f,
     fs w !! path = Some f ->
     Size fileInfo = Z.of_nat (length (f_content f)) ->
     rec_open_fault env = None ->
     rec_mmap_fault env = None ->
     let lifeLeft := Sub (ModTime fileInfo + lifeTime) startTime in
     exists s' w',
       Recover lifeTime startTime idFromPath s path fileInfo None env w = (None, s', w') /\
       cache s' !! id =
         Some (mkCache 0 (ModTime fileInfo) path
                       (mkSlice (brk w) (length (f_content f))) (Size fileInfo)) /\
       stats s' = makeSpaceFor (stats s) (Size fileInfo) /\
       vm w' !! brk w = Some (f_content f) /\
       (0 < lifeTime ->
          timers w' = (id, lifeLeft) :: timers w /\
          0 < lifeLeft /\
          (Int64.in64 (ModTime fileInfo + lifeTime - startTime) ->
             lifeLeft = ModTime fileInfo + lifeTime - startTime)) /\
       (lifeTime = 0 -> timers w' = timers w) /\
       (exists p w'',
          Get s' id w' = (Ok p, w'') /\
          ReadAll p w'' = Some (f_content f) /\
          PasteModTime p w'' = Some (ModTime fileInfo) /\
          PasteSize p w'' = Some (Size fileInfo))).
Proof.
  intros Hd Hid Hexp Hsz. split.
  - intros err Hq. now apply Recover_survivor_refused with (id := id).
  - intros Hq f Hf Hlen Ho Hm.
    now apply Recover_survivor_registers.
Qed.

(** C6, amended: a zero-byte file is dealt with inside the callback:
    [Recover] removes it, leaves the store alone and reports no error, and
    the walk goes on with the entries that follow.  A name that does not
    parse is not: [Recover] hands the parse error back with the file, the
    store and the world untouched, and the walk stops there with that
    error. *)
Theorem Recover_empty_file_discarded_unparsable_name_aborts
    (lifeTime startTime : Z) (idFromPath : string -> result ID)
    (e : WalkEntry) (rest : list WalkEntry) (s : MmapStore) (w : World) :
  IsDir (we_info e) = false ->
  we_err e = None ->
  (forall id,
     idFromPath (we_path e) = Ok id ->
     Size (we_info e) = 0 ->
     rec_remove_fault (we_env e) = None ->
     is_Some (fs w !! we_path e) ->
     let w' := set_fs w (delete (we_path e) (fs w)) in
     Recover lifeTime startTime idFromPath s
             (we_path e) (we_info e) (we_err e) (we_env e) w = (None, s, w') /\
     fs w' !! we_path e = None /\
     setupSubdirs lifeTime startTime idFromPath (e :: rest) s w =
       setupSubdirs lifeTime startTime idFromPath rest s w') /\
  (forall err,
     idFromPath (we_path e) = Err err ->
     Recover lifeTime startTime idFromPath s
             (we_path e) (we_info e) (we_err e) (we_env e) w = (Some err, s, w) /\
     setupSubdirs lifeTime startTime idFromPath (e :: rest) s w = (Some err, s, w)).
Proof.
  intros Hd He. split.
  - intros id Hid Hsz Hfault Hf w'.
    assert (Hr : Recover lifeTime startTime idFromPath s
                   (we_path e) (we_info e) (we_err e) (we_env e) w = (None, s, w')).
    { rewrite He.
      rewrite (Recover_discard lifeTime startTime idFromPath s _ _ _ w id Hd Hid)
        by now right.
      now rewrite Hfault, (Remove_existing _ _ Hf). }
    split; [exact Hr|]. split; [apply lookup_delete_eq|].
    cbn [setupSubdirs]. now rewrite Hr.
  - intros err Hid.
    assert (Hr : Recover lifeTime startTime idFromPath s
                   (we_path e) (we_info e) (we_err e) (we_env e) w = (Some err, s, w)).
    { rewrite He. now apply Recover_unparsable. }
    split; [exact Hr|]. cbn [setupSubdirs]. now rewrite Hr.
Qed.

(** ** The quota ceilings *)

Lemma wrap64_in64 (z : Z) : Int64.in64 (Int64.wrap64 z).
Proof.
  unfold Int64.in64, Int64.wrap64, Int64.min, Int64.max.
  pose proof (Z.mod_pos_bound (z + 2 ^ 63) (2 ^ 64) ltac:(lia)). lia.
Qed.

Lemma wrap64_id (z : Z) : Int64.in64 z -> Int64.wrap64 z = z.
Proof.
  unfold Int64.in64, Int64.wrap64, Int64.min, Int64.max. intros H.
  rewrite Z.mod_small; lia.
Qed.

Lemma total_empty : total ∅ = 0.
Proof. unfold total. apply map_fold_empty. Qed.

Lemma total_insert_fresh (m : gmap ID mmapCache) (i : ID) (c : mmapCache) :
  m !! i = None -> total (<[i := c]> m) = size c + total m.
Proof.
  intros H. unfold total.
  rewrite (map_fold_insert_L (fun (_ : ID) c acc => size c + acc) 0 i c m);
    [reflexivity | intros; lia | exact H].
Qed.

Lemma total_delete (m : gmap ID mmapCache) (i : ID) (c : mmapCache) :
  m !! i = Some c -> total m = size c + total (delete i m).
Proof.
  intros H. unfold total.
  rewrite (map_fold_delete_L (fun (_ : ID) c acc => size c + acc) 0 i c m);
    [reflexivity | intros; lia | exact H].
Qed.

Lemma total_nonneg (m : gmap ID mmapCache) :
  (forall i c, m !! i = Some c -> 0 < size c) -> 0 <= total m.
Proof.
  induction m as [|i c m Hi IH] using map_ind; intros H.
  - rewrite total_empty. lia.
  - rewrite total_insert_fresh by exact Hi.
    assert (0 < size c) by (apply (H i); apply lookup_insert_eq).
    assert (0 <= total m).
    { apply IH. intros j d Hj. apply (H j).
      rewrite lookup_insert_ne; [exact Hj|]. intros ->. congruence. }
    lia.
Qed.

Lemma total_insert_le (m : gmap ID mmapCache) (i : ID) (c : mmapCache) :
  (forall j d, m !! j = Some d -> 0 < size d) ->
  total (<[i := c]> m) <= size c + total m.
Proof.
  intros H. destruct (m !! i) as [d|] eqn:Hi.
  - rewrite <- insert_delete_eq.
    rewrite total_insert_fresh by apply lookup_delete_eq.
    rewrite (total_delete m i d Hi).
    specialize (H i d Hi). lia.
  - rewrite total_insert_fresh by exact Hi. lia.
Qed.

Lemma total_delete_le (m : gmap ID mmapCache) (i : ID) :
  (forall j d, m !! j = Some d -> 0 < size d) ->
  total (delete i m) <= total m.
Proof.
  intros H. destruct (m !! i) as [d|] eqn:Hi.
  - rewrite (total_delete m i d Hi). specialize (H i d Hi). lia.
  - rewrite delete_id by exact Hi. lia.
Qed.

Lemma size_insert_le (m : gmap ID mmapCache) (i : ID) (c : mmapCache) :
  (base.size (<[i := c]> m) <= S (base.size m))%nat.
Proof.
  destruct (m !! i) as [d|] eqn:Hi.
  - rewrite map_size_insert_Some by eauto. lia.
  - rewrite map_size_insert_None by exact Hi. lia.
Qed.

Lemma size_delete_Some (m : gmap ID mmapCache) (i : ID) (c : mmapCache) :
  m !! i = Some c -> base.size m = S (base.size (delete i m)).
Proof.
  intros Hi. rewrite map_size_delete_Some by eauto.
  assert (base.size m <> 0%nat).
  { apply map_size_non_empty_iff. intros ->. now rewrite lookup_empty in Hi. }
  lia.
Qed.

Lemma hasSpaceFor_None (st : Stats) (n : Z) :
  hasSpaceFor st n = None ->
  (0 < maxNumber st -> Int64.add (number st) 1 <= maxNumber st) /\
  (0 < maxStorage st -> Int64.add (storage st) n <= maxStorage st).
Proof.
  unfold hasSpaceFor.
  destruct (Z.ltb_spec 0 (maxNumber st));
    destruct (Z.ltb_spec (maxNumber st) (Int64.add (number st) 1));
    cbn [andb]; try discriminate;
    destruct (Z.ltb_spec 0 (maxStorage st));
    destruct (Z.ltb_spec (maxStorage st) (Int64.add (storage st) n));
    cbn [andb]; try discriminate; intros _; split; intros; lia.
Qed.

(** Registering an entry of positive size after the quota check passed. *)
Lemma store_inv_register (s : MmapStore) (id : ID) (t : Z) (p : string)
    (region : slice) (n : Z) :
  store_inv s ->
  hasSpaceFor (stats s) n = None ->
  0 < n ->
  n + maxStorage (stats s) <= Int64.max ->
  store_inv (mkStore (<[id := mkCache 0 t p region n]> (cache s)) (dir s)
                     (makeSpaceFor (stats s) n)).
Proof.
  intros (Hn & Hs & Hsz & HN & HS) Hq Hpos Hfit.
  apply hasSpaceFor_None in Hq as [HqN HqS].
  assert (Hsz' : forall j d, cache s !! j = Some d -> 0 < size d)
    by (intros j d Hj; apply (Hsz j d Hj)).
  unfold store_inv. cbn [stats cache makeSpaceFor number storage maxNumber maxStorage].
  split; [apply wrap64_in64|]. split; [apply wrap64_in64|]. split; [|split].
  - intros j d. rewrite lookup_insert. case_decide.
    + intros [= <-]. cbn. auto.
    + apply Hsz.
  - intros Hmax. specialize (HN Hmax).
    pose proof (size_insert_le (cache s) id (mkCache 0 t p region n)).
    unfold Int64.add in *. unfold Int64.in64, Int64.min, Int64.max in *.
    rewrite wrap64_id in * by (unfold Int64.in64, Int64.min, Int64.max; lia).
    specialize (HqN ltac:(lia)). lia.
  - intros Hmax. specialize (HS Hmax).
    pose proof (total_insert_le (cache s) id (mkCache 0 t p region n) Hsz') as Hle.
    pose proof (total_nonneg (cache s) Hsz').
    cbn [size] in Hle.
    unfold Int64.add in *. unfold Int64.in64, Int64.min, Int64.max in *.
    rewrite wrap64_id in * by (unfold Int64.in64, Int64.min, Int64.max; lia).
    specialize (HqS Hmax). lia.
Qed.

(** Taking an entry out of the table and releasing its quota. *)
Lemma store_inv_delete_free (s : MmapStore) (id : ID) (c : mmapCache) :
  store_inv s ->
  cache s !! id = Some c ->
  store_inv (mkStore (delete id (cache s)) (dir s) (freeSpace (stats s) (size c))).
Proof.
  intros (Hn & Hs & Hsz & HN & HS) Hc.
  assert (Hsz' : forall j d, cache s !! j = Some d -> 0 < size d)
    by (intros j d Hj; apply (Hsz j d Hj)).
  assert (Hsz'' : forall j d, delete id (cache s) !! j = Some d -> 0 < size d).
  { intros j d Hj. apply lookup_delete_Some in Hj as [_ Hj]. eauto. }
  unfold store_inv. cbn [stats cache freeSpace number storage maxNumber maxStorage].
  split; [apply wrap64_in64|]. split; [apply wrap64_in64|]. split; [|split].
  - intros j d Hj. apply lookup_delete_Some in Hj as [_ Hj]. eauto.
  - intros Hmax. specialize (HN Hmax).
    pose proof (size_delete_Some (cache s) id c Hc).
    unfold Int64.sub. unfold Int64.in64, Int64.min, Int64.max in *.
    rewrite wrap64_id by (unfold Int64.in64, Int64.min, Int64.max; lia). lia.
  - intros Hmax. specialize (HS Hmax).
    pose proof (total_delete (cache s) id c Hc).
    pose proof (total_nonneg _ Hsz'').
    pose proof (Hsz' id c Hc).
    unfold Int64.sub. unfold Int64.in64, Int64.min, Int64.max in *.
    rewrite wrap64_id by (unfold Int64.in64, Int64.min, Int64.max; lia). lia.
Qed.

(** Taking an entry out of the table and keeping the quota state. *)
Lemma store_inv_delete_keep (s : MmapStore) (id : ID) :
  store_inv s ->
  store_inv (mkStore (delete id (cache s)) (dir s) (stats s)).
Proof.
  intros (Hn & Hs & Hsz & HN & HS).
  assert (Hsz' : forall j d, cache s !! j = Some d -> 0 < size d)
    by (intros j d Hj; apply (Hsz j d Hj)).
  unfold store_inv. cbn [stats cache].
  split; [exact Hn|]. split; [exact Hs|]. split; [|split].
  - intros j d Hj. apply lookup_delete_Some in Hj as [_ Hj]. eauto.
  - intros Hmax. specialize (HN Hmax).
    destruct (cache s !! id) as [c|] eqn:Hc.
    + pose proof (size_delete_Some (cache s) id c Hc). lia.
    + rewrite map_size_delete_None by exact Hc. lia.
  - intros Hmax. specialize (HS Hmax).
    pose proof (total_delete_le (cache s) id Hsz'). lia.
Qed.

(** The ceilings follow from the invariant. *)
Lemma store_inv_quota_ok (s : MmapStore) : store_inv s -> quota_ok (stats s).
Proof.
  intros (Hn & Hs & _ & HN & HS). split.
  - intros Hmax. unfold Int64.in64, Int64.max in *.
    destruct (Z.lt_ge_cases (maxNumber (stats s)) (2 ^ 63 - 1)); [|lia].
    apply HN. lia.
  - intros Hmax. now apply HS.
Qed.

Lemma store_inv_fresh (d : string) (maxN maxS : Z) :
  store_inv (mkStore ∅ d (mkStats 0 maxN 0 maxS)).
Proof.
  unfold store_inv. cbn.
  split; [unfold Int64.in64, Int64.min, Int64.max; lia|].
  split; [unfold Int64.in64, Int64.min, Int64.max; lia|].
  split; [intros id c H; now rewrite lookup_empty in H|].
  rewrite map_size_empty, total_empty. lia.
Qed.

(** A [Put] that returns an error returns the store it was given: every
    failure of [MmapStore.Put] comes before [makeSpaceFor]. *)
Lemma Put_failure_keeps_store (pathFromID : ID -> string) (s s' : MmapStore)
    (data : list Byte.byte) (env : PutEnv) (w w' : World) (id : ID) (e : error) :
  Put pathFromID s data env w = (id, Some e, s', w') -> s' = s.
Proof.
  unfold Put. cbv zeta.
  destruct (hasSpaceFor _ _); [now intros [= _ _ <- _]|].
  destruct (randomID _ _); [|now intros [= _ _ <- _]].
  destruct (writeNewFile _ _ _ _ _) as [[e1|] w1]; [now intros [= _ _ <- _]|].
  destruct (getMmap _ _ _ _) as [[region|e2] w2]; [discriminate|].
  now intros [= _ _ <- _].
Qed.

(** What [Recover] can do to the store: nothing, or register one entry of
    positive size after the quota check. *)
Lemma Recover_store_cases (lifeTime startTime : Z) (idFromPath : string -> result ID)
    (s s' : MmapStore) (path : string) (fileInfo : FileInfo) (err e : option error)
    (env : RecoverEnv) (w w' : World) :
  Recover lifeTime startTime idFromPath s path fileInfo err env w = (e, s', w') ->
  s' = s \/
  (exists id region,
     0 < Size fileInfo /\
     hasSpaceFor (stats s) (Size fileInfo) = None /\
     s' = mkStore (<[id := mkCache 0 (ModTime fileInfo) path region (Size fileInfo)]>
                     (cache s))
                  (dir s) (makeSpaceFor (stats s) (Size fileInfo))).
Proof.
  unfold Recover.
  destruct (bool_decide (err <> None) || IsDir fileInfo); [intros [= _ <- _]; now left|].
  destruct (idFromPath path) as [id|e0]; [|intros [= _ <- _]; now left].
  cbv zeta.
  destruct ((0 <? lifeTime) && _).
  { destruct (OS.Remove _ _ _). intros [= _ <- _]. now left. }
  destruct (Size fileInfo =? 0).
  { destruct (OS.Remove _ _ _). intros [= _ <- _]. now left. }
  destruct (hasSpaceFor _ _) eqn:Hq; [intros [= _ <- _]; now left|].
  unfold getMmap, OS.Mmap.
  destruct (Z.leb_spec (Size fileInfo) 0); [intros [= _ <- _]; now left|].
  destruct (OS.Open _ _ _); [|intros [= _ <- _]; now left].
  destruct (rec_mmap_fault env); [intros [= _ <- _]; now left|].
  intros [= _ <- _]. right. eexists _, _. repeat split; auto; lia.
Qed.

Section Invariant.

Variable lifeTime : Z.
Variable startTime : Z.
Variable idFromPath : string -> result ID.
Variable pathFromID : ID -> string.

Local Abbreviation step1 := (step lifeTime startTime idFromPath pathFromID).
Local Abbreviation runs := (run lifeTime startTime idFromPath pathFromID).

Lemma step_keeps_ceilings (o : op) (s s' : MmapStore) (w w' : World) (live : bool) :
  step1 o s w = (s', w', live) ->
  maxNumber (stats s') = maxNumber (stats s) /\
  maxStorage (stats s') = maxStorage (stats s).
Proof.
  destruct o as [data env | id env | path fileInfo err env]; cbn [step].
  - destruct (Put _ _ _ _ _) as [[[id [e|]] s1] w1] eqn:HP; intros [= <- <- <-].
    + now rewrite (Put_failure_keeps_store _ _ _ _ _ _ _ _ _ HP).
    + apply Put_success_inv in HP as (_ & _ & _ & -> & _). now cbn.
  - unfold Delete. destruct (cache s !! id) as [c|]; [|intros [= <- <- <-]; auto].
    destruct (0 <? reading c); [intros [= <- <- <-]; auto|].
    destruct (OS.Munmap _ _ _) as [[e1|] w1]; [intros [= <- <- <-]; auto|].
    destruct (OS.Remove _ _ _) as [[e2|] w2]; intros [= <- <- <-]; auto.
  - destruct (Recover _ _ _ _ _ _ _ _ _) as [[e s1] w1] eqn:HR. intros [= <- <- <-].
    apply Recover_store_cases in HR as [-> | (id & region & _ & _ & ->)]; auto.
Qed.

Lemma step_preserves_inv (o : op) (s s' : MmapStore) (w w' : World) (live : bool) :
  store_inv s ->
  op_fits (maxStorage (stats s)) o ->
  step1 o s w = (s', w', live) ->
  store_inv s'.
Proof.
  intros Hinv Hfit.
  destruct o as [data env | id env | path fileInfo err env]; cbn [step].
  - destruct (Put _ _ _ _ _) as [[[id [e|]] s1] w1] eqn:HP; intros [= <- <- <-].
    + now rewrite (Put_failure_keeps_store _ _ _ _ _ _ _ _ _ HP).
    + apply Put_success_inv in HP as (Hq & _ & Hpos & -> & _).
      now apply store_inv_register.
  - unfold Delete. destruct (cache s !! id) as [c|] eqn:Hc; [|intros [= <- <- <-]; auto].
    destruct (0 <? reading c);
      [intros [= <- <- <-]; now apply store_inv_delete_keep|].
    destruct (OS.Munmap _ _ _) as [[e1|] w1];
      [intros [= <- <- <-]; now apply store_inv_delete_keep|].
    destruct (OS.Remove _ _ _) as [[e2|] w2]; intros [= <- <- <-].
    + now apply store_inv_delete_keep.
    + now apply store_inv_delete_free.
  - destruct (Recover _ _ _ _ _ _ _ _ _) as [[e s1] w1] eqn:HR. intros [= <- <- <-].
    apply Recover_store_cases in HR as [-> | (id & region & Hpos & Hq & ->)]; auto.
    destruct Hfit as [_ Hfit]. now apply store_inv_register.
Qed.

Lemma run_preserves_inv (ops : list op) (s : MmapStore) (w : World) :
  store_inv s ->
  Forall (op_fits (maxStorage (stats s))) ops ->
  store_inv (fst (runs ops s w)).
Proof.
  revert s w. induction ops as [|o ops IH]; intros s w Hinv Hfit; [exact Hinv|].
  apply Forall_cons in Hfit as [Ho Hops].
  cbn [run].
  destruct (step1 o s w) as [[s1 w1] live] eqn:Hstep.
  pose proof (step_preserves_inv _ _ _ _ _ _ Hinv Ho Hstep) as Hinv1.
  destruct (step_keeps_ceilings _ _ _ _ _ _ Hstep) as [_ HmaxS].
  destruct live; [|exact Hinv1].
  apply IH; [exact Hinv1|]. now rewrite HmaxS.
Qed.

Lemma run_keeps_ceilings (ops : list op) (s : MmapStore) (w : World) :
  maxNumber (stats (fst (runs ops s w))) = maxNumber (stats s) /\
  maxStorage (stats (fst (runs ops s w))) = maxStorage (stats s).
Proof.
  revert s w. induction ops as [|o ops IH]; intros s w; [now cbn|].
  cbn [run].
  destruct (step1 o s w) as [[s1 w1] live] eqn:Hstep.
  destruct (step_keeps_ceilings _ _ _ _ _ _ Hstep) as [H1 H2].
  destruct live; [|now cbn].
  rewrite <- H1, <- H2. apply IH.
Qed.

End Invariant.

(** C2: start from a store with an empty table, zero counters and any
    ceilings, and run any sequence of [Put], [Delete] and [Recover] calls
    whose sizes fit an [int64] next to the byte ceiling.  After every
    prefix of the sequence the counters respect the ceilings that are set:
    [number <= maxNumber] when [maxNumber > 0] and [storage <= maxStorage]
    when [maxStorage > 0]. *)
Theorem quota_ceilings_hold_after_every_operation
    (lifeTime startTime : Z) (idFromPath : string -> result ID)
    (pathFromID : ID -> string)
    (d : string) (maxN maxS : Z) (w : World) (ops : list op) (k : nat) :
  Forall (op_fits maxS) ops ->
  let s0 := mkStore ∅ d (mkStats 0 maxN 0 maxS) in
  let st := stats (fst (run lifeTime startTime idFromPath pathFromID
                            (take k ops) s0 w)) in
  maxNumber st = maxN /\ maxStorage st = maxS /\
  (0 < maxN -> number st <= maxN) /\
  (0 < maxS -> storage st <= maxS).
Proof.
  intros Hfit s0 st.
  assert (Hfit' : Forall (op_fits (maxStorage (stats s0))) (take k ops))
    by (apply Forall_take; exact Hfit).
  pose proof (run_preserves_inv lifeTime startTime idFromPath pathFromID
                (take k ops) s0 w (store_inv_fresh d maxN maxS) Hfit') as Hinv.
  apply store_inv_quota_ok in Hinv. fold st in Hinv.
  destruct (run_keeps_ceilings lifeTime startTime idFromPath pathFromID
              (take k ops) s0 w) as [HN HS].
  fold st in HN, HS. cbn in HN, HS.
  destruct Hinv as [H1 H2].
  rewrite HN in H1. rewrite HS in H2. auto.
Qed.

(** ** The handler and the quota *)

Lemma wrap64_add_sub (a b : Z) :
  Int64.in64 a -> Int64.sub (Int64.add a b) b = a.
Proof.
  unfold Int64.in64, Int64.min, Int64.max, Int64.sub, Int64.add, Int64.wrap64.
  intros Ha.
  replace ((a + b + 2 ^ 63) mod 2 ^ 64 - 2 ^ 63 - b + 2 ^ 63)
    with ((a + b + 2 ^ 63) mod 2 ^ 64 - b) by lia.
  rewrite Zminus_mod_idemp_l.
  replace (a + b + 2 ^ 63 - b) with (a + 2 ^ 63) by lia.
  rewrite Z.mod_small; lia.
Qed.

Lemma wrap64_pred_neq (a : Z) : Int64.in64 a -> Int64.sub a 1 <> a.
Proof.
  unfold Int64.in64, Int64.min, Int64.max, Int64.sub, Int64.wrap64.
  intros Ha. destruct (Z.eq_dec a (- 2 ^ 63)) as [-> | Hne].
  - now vm_compute.
  - rewrite Z.mod_small; lia.
Qed.

Lemma FreeSpace_MakeSpaceFor (st : Stats) (n : Z) :
  Int64.in64 (number st) -> Int64.in64 (storage st) ->
  Handler.FreeSpace (makeSpaceFor st n) n = st.
Proof.
  intros Hn Hs. destruct st as [num maxN sto maxS].
  unfold Handler.FreeSpace, freeSpace, makeSpaceFor. cbn in *.
  now rewrite !wrap64_add_sub.
Qed.

Section HandlerFacts.

Context {St : Type} `{Handler.Store St}.
Variable siteURL : string.
Variable lifeTime : Z.
Variable errorText : error -> string.

Local Abbreviation handlePost := (Handler.handlePost siteURL lifeTime errorText).

(** What the handler does once the reservation has failed. *)
Lemma handlePost_after_failed_reservation (x : Handler.State)
    (w : Handler.ResponseWriter) (r : Handler.Request)
    (content : list Byte.byte) (err : error) :
  Handler.getContentFromForm r = Ok content ->
  hasSpaceFor (Handler.st_stats x) (Z.of_nat (length content)) = Some err ->
  let size := Z.of_nat (length content) in
  let w1 := Handler.http_Error w (errorText err) Handler.StatusServiceUnavailable in
  handlePost x w r =
    match Handler.sPut content (Handler.st_store x) with
    | (id, Some perr, store) =>
        (Handler.mkState store (Handler.FreeSpace (Handler.st_stats x) size)
                         (Handler.st_timers x),
         Handler.http_Error w1 (errorText perr) Handler.StatusInternalServerError)
    | (id, None, store) =>
        (Handler.SetupPasteDeletion lifeTime
           (Handler.mkState store (Handler.st_stats x) (Handler.st_timers x))
           id size lifeTime,
         Handler.Write (siteURL ++ "/" ++ id ++ Handler.newline) w1)
    end.
Proof.
  intros Hc Hq. cbv zeta. unfold Handler.handlePost, Handler.MakeSpaceFor.
  rewrite Hc, Hq.
  now destruct (Handler.sPut content (Handler.st_store x)) as [[id [perr|]] store].
Qed.

(** What the handler does when the reservation succeeded and [Put]
    failed: the release undoes the reservation. *)
Lemma handlePost_rollback (x : Handler.State)
    (w : Handler.ResponseWriter) (r : Handler.Request)
    (content : list Byte.byte) (id : ID) (perr : error) (store : St) :
  Handler.getContentFromForm r = Ok content ->
  hasSpaceFor (Handler.st_stats x) (Z.of_nat (length content)) = None ->
  Handler.sPut content (Handler.st_store x) = (id, Some perr, store) ->
  Int64.in64 (number (Handler.st_stats x)) ->
  Int64.in64 (storage (Handler.st_stats x)) ->
  Handler.st_stats (fst (handlePost x w r)) = Handler.st_stats x.
Proof.
  intros Hc Hq HP Hn Hs. unfold Handler.handlePost, Handler.MakeSpaceFor.
  rewrite Hc, Hq, HP. cbn. now apply FreeSpace_MakeSpaceFor.
Qed.

End HandlerFacts.

(** C7, at the input where the code departs from it: the reservation
    fails, the handler goes on to [Put], [Put] fails, and the handler
    releases a quota that was never reserved, so the counters after the
    failed [Put] are not the ones before it. *)
Theorem handlePost_failed_Put_after_failed_reservation_changes_quota
    {St : Type} `{Handler.Store St}
    (siteURL : string) (lifeTime : Z) (errorText : error -> string)
    (x : Handler.State) (w : Handler.ResponseWriter) (r : Handler.Request)
    (content : list Byte.byte) (err perr : error) (id : ID) (store : St) :
  Handler.getContentFromForm r = Ok content ->
  hasSpaceFor (Handler.st_stats x) (Z.of_nat (length content)) = Some err ->
  Handler.sPut content (Handler.st_store x) = (id, Some perr, store) ->
  Int64.in64 (number (Handler.st_stats x)) ->
  let x' := fst (Handler.handlePost siteURL lifeTime errorText x w r) in
  Handler.st_stats x' =
    Handler.FreeSpace (Handler.st_stats x) (Z.of_nat (length content)) /\
  number (Handler.st_stats x') = Int64.sub (number (Handler.st_stats x)) 1 /\
  storage (Handler.st_stats x') =
    Int64.sub (storage (Handler.st_stats x)) (Z.of_nat (length content)) /\
  number (Handler.st_stats x') <> number (Handler.st_stats x).
Proof.
  intros Hc Hq HP Hn x'. subst x'.
  rewrite (handlePost_after_failed_reservation siteURL lifeTime errorText
             x w r content err Hc Hq), HP.
  cbn. repeat split. now apply wrap64_pred_neq.
Qed.

(** C10: when the reservation fails, [handlePost] writes the
    service-unavailable response and goes on: it calls [Put] with the
    content and continues from the store [Put] returns.  When [Put]
    succeeds it hands the paste to the deletion scheduler (which arms a
    timer for the lifetime when that is positive) and appends the paste's
    URL to the body that already carries the error; the status stays the
    service-unavailable one. *)
Theorem handlePost_does_not_return_after_failed_reservation
    {St : Type} `{Handler.Store St}
    (siteURL : string) (lifeTime : Z) (errorText : error -> string)
    (x : Handler.State) (r : Handler.Request)
    (content : list Byte.byte) (err : error) (id : ID) (perr : option error)
    (store : St) :
  Handler.getContentFromForm r = Ok content ->
  hasSpaceFor (Handler.st_stats x) (Z.of_nat (length content)) = Some err ->
  Handler.sPut content (Handler.st_store x) = (id, perr, store) ->
  let size := Z.of_nat (length content) in
  let result :=
    Handler.handlePost siteURL lifeTime errorText x Handler.newResponse r in
  Handler.status (snd result) = Some Handler.StatusServiceUnavailable /\
  match perr with
  | None =>
      fst result =
        Handler.SetupPasteDeletion lifeTime
          (Handler.mkState store (Handler.st_stats x) (Handler.st_timers x))
          id size lifeTime /\
      (0 < lifeTime ->
         Handler.st_store (fst result) = store /\
         Handler.st_stats (fst result) = Handler.st_stats x /\
         Handler.st_timers (fst result) =
           (id, size, lifeTime) :: Handler.st_timers x) /\
      Handler.body (snd result) =
        ((errorText err ++ Handler.newline) ++
         (siteURL ++ "/" ++ id ++ Handler.newline))%string
  | Some e =>
      fst result =
        Handler.mkState store (Handler.FreeSpace (Handler.st_stats x) size)
                        (Handler.st_timers x) /\
      Handler.body (snd result) =
        ((errorText err ++ Handler.newline) ++
         (errorText e ++ Handler.newline))%string
  end.
Proof.
  intros Hc Hq HP size result. subst result.
  rewrite (handlePost_after_failed_reservation siteURL lifeTime errorText
             x Handler.newResponse r content err Hc Hq), HP.
  destruct perr as [e|]; cbn [fst snd].
  - repeat split.
  - split; [reflexivity|]. split; [reflexivity|]. split; [|reflexivity].
    intros Hpos. unfold Handler.SetupPasteDeletion.
    destruct (Z.eqb_spec lifeTime 0); [lia|].
    destruct (Z.leb_spec lifeTime 0); [lia|]. now cbn.
Qed.

(** ** The reader and the deletion *)

(** In a reachable store no [Delete] ever waits: the counter it waits on
    is the one of its own copy of the entry, and the table's entries all
    carry a zero counter. *)
Lemma Delete_never_waits (s : MmapStore) (id : ID) (env : DeleteEnv) (w : World) :
  store_inv s ->
  exists err s' w', Delete s id env w = Returns err s' w'.
Proof.
  intros (_ & _ & Hsz & _). unfold Delete.
  destruct (cache s !! id) as [c|] eqn:Hc; [|eauto].
  destruct (Hsz id c Hc) as [_ ->]. cbn.
  destruct (OS.Munmap _ _ _) as [[e1|] w1]; [eauto|].
  destruct (OS.Remove _ _ _) as [[e2|] w2]; eauto.
Qed.

(** [Get] leaves the table's counter alone: the increment lands in the
    copy the handle points to. *)
Lemma Get_counts_in_the_copy (s : MmapStore) (id : ID) (w w' : World)
    (c : mmapCache) (p : MmapPaste) :
  cache s !! id = Some c ->
  Get s id w = (Ok p, w') ->
  reading <$> heap w' !! pcache p = Some (reading c + 1) /\
  reading <$> cache s !! id = Some (reading c).
Proof.
  intros Hc. rewrite (Get_present s id w c Hc). intros [= <- <-].
  cbn. rewrite lookup_insert_eq, Hc. now cbn.
Qed.

(** A handle taken before a [Delete] that meets no fault is left with a
    region that is gone: the [Delete] returns although the handle's counter
    is 1, and reading through the handle faults. *)
Lemma Delete_after_Get_faults_the_reader (s : MmapStore) (id : ID)
    (w w2 : World) (c : mmapCache) (f : File) (data : list Byte.byte)
    (p : MmapPaste) :
  cache s !! id = Some c ->
  reading c = 0 ->
  slen (mmap c) <> 0%nat ->
  vm w !! addr (mmap c) = Some data ->
  fs w !! path c = Some f ->
  Get s id w = (Ok p, w2) ->
  exists s3 w3,
    Delete s id noDeleteFault w2 = Returns None s3 w3 /\
    reading <$> heap w3 !! pcache p = Some 1 /\
    forall n, n <> 0%nat -> Read p n w3 = None.
Proof.
  intros Hc Hr Hlen Hvm Hfs. rewrite (Get_present s id w c Hc).
  intros [= <- <-]. unfold Delete. rewrite Hc, Hr. cbn [Z.ltb Z.compare].
  unfold OS.Munmap, OS.Remove. cbn [noDeleteFault munmap_fault remove_fault].
  destruct (slen (mmap c)) as [|k] eqn:Hk; [contradiction|].
  cbn [vm set_heap fs set_vm]. rewrite Hvm. cbn [fs set_vm set_heap]. rewrite Hfs.
  eexists _, _. split; [reflexivity|]. split.
  - cbn. rewrite lookup_insert_eq. reflexivity.
  - intros n Hn. unfold Read. cbn [content r_s r_i NewReader].
    rewrite load_unmapped; [reflexivity | | exact Hn | rewrite Hk; lia].
    cbn. apply lookup_delete_eq.
Qed.

(** C1, at the input where the code departs from it: a paste is put, a
    reader gets a handle for it and can read it; a [Delete] of the same id
    then returns at once, although the handle has not been closed (its
    counter is still 1): the region is unmapped and the file removed under
    the reader, whose next read faults. *)
Theorem Delete_unmaps_while_a_reader_holds_the_handle :
  exists p w2 s3 w3,
    Get Examples.s1 Examples.id1 Examples.w1 = (Ok p, w2) /\
    ReadAll p w2 = Some Sample.foo /\
    Delete Examples.s1 Examples.id1 noDeleteFault w2 = Returns None s3 w3 /\
    reading <$> heap w3 !! pcache p = Some 1 /\
    cache s3 !! Examples.id1 = None /\
    vm w3 !! addr (r_s (content p)) = None /\
    fs w3 !! Sample.pathFromID Examples.id1 = None /\
    ReadAll p w3 = None.
Proof.
  eexists _, _, _, _.
  split; [vm_compute; reflexivity|].
  split; [vm_compute; reflexivity|].
  split; [vm_compute; reflexivity|].
  repeat split; vm_compute; reflexivity.
Qed.

(** ** The theorems at the worked examples *)

Section Witnesses.

Import Sample Examples.

Local Ltac by_computation := vm_compute; first [reflexivity | congruence | tauto].

Lemma quota_ceilings_witness :
  Forall (op_fits 10) someOps /\
  let st := stats (fst (run lifeTime startTime idFromPath pathFromID
                            (take 4 someOps)
                            (mkStore ∅ "pastes" (mkStats 0 1 0 10)) wFresh)) in
  maxNumber st = 1 /\ maxStorage st = 10 /\
  (0 < 1 -> number st <= 1) /\ (0 < 10 -> storage st <= 10).
Proof.
  assert (Hfit : Forall (op_fits 10) someOps).
  { repeat constructor; cbn; unfold Int64.min, Int64.max; lia. }
  split; [exact Hfit|].
  exact (quota_ceilings_hold_after_every_operation
           lifeTime startTime idFromPath pathFromID "pastes" 1 10 wFresh
           someOps 4 Hfit).
Defined.

Lemma Recover_stale_file_witness :
  (0 < lifeTime /\ ModTime stale < startTime - lifeTime) /\
  exists e w',
    Recover lifeTime startTime idFromPath (store 0 0) (pathFromID id2) stale
            None noRecoverFault wStale = (e, store 0 0, w') /\
    (e, w') = OS.Remove (pathFromID id2) (rec_remove_fault noRecoverFault) wStale /\
    timers w' = timers wStale /\ vm w' = vm wStale /\
    (rec_remove_fault noRecoverFault = None ->
     is_Some (fs wStale !! pathFromID id2) ->
       e = None /\ fs w' !! pathFromID id2 = None) /\
    (cache (store 0 0) !! id2 = None ->
       forall w2, Get (store 0 0) id2 w2 = (Err ErrPasteNotFound, w2)).
Proof.
  assert (Hold : 0 < lifeTime /\ ModTime stale < startTime - lifeTime).
  { split; by_computation. }
  split; [exact Hold|].
  apply (Recover_expired_or_empty_is_removed_unregistered
           lifeTime startTime idFromPath (store 0 0) (pathFromID id2) stale
           noRecoverFault wStale id2).
  - reflexivity.
  - by_computation.
  - left. exact Hold.
Defined.

Lemma Put_Get_roundtrip_witness :
  foo <> [] /\
  exists p w'', Get s1 id1 w1 = (Ok p, w'') /\ ReadAll p w'' = Some foo.
Proof.
  assert (Hne : foo <> []) by discriminate.
  split; [exact Hne|].
  apply (Put_Get_roundtrip pathFromID (store 0 0) s1 foo
           (noPutFault [id1] startTime) emptyWorld w1 id1 Hne).
  by_computation.
Defined.

Lemma Delete_missing_witness :
  cache s1 !! id2 = None /\
  Delete s1 id2 noDeleteFault w1 = Returns (Some ErrPasteNotFound) s1 w1.
Proof.
  assert (Hc : cache s1 !! id2 = None) by by_computation.
  split; [exact Hc|].
  exact (proj1 (Delete_missing_NotFound_no_quota_change s1 id2 noDeleteFault w1 Hc)).
Defined.

(** The unmapping fails for want of memory. *)
Lemma Delete_failure_witness :
  exists c s' w',
    cache s1 !! id1 = Some c /\
    Delete s1 id1 (mkDeleteEnv (Some noMemory) None) w1 =
      Returns (Some noMemory) s' w' /\
    stats s' = stats s1 /\
    (forall w2, Get s' id1 w2 = (Err ErrPasteNotFound, w2)) /\
    (forall env2 w2, Delete s' id1 env2 w2 = Returns (Some ErrPasteNotFound) s' w2).
Proof.
  eexists _, _, _.
  assert (Hc : cache s1 !! id1 =
               Some (mkCache 0 startTime (pathFromID id1) (mkSlice 1 3) 3))
    by by_computation.
  assert (Hd : Delete s1 id1 (mkDeleteEnv (Some noMemory) None) w1 =
               Returns (Some noMemory)
                 (mkStore (delete id1 (cache s1)) (dir s1) (stats s1)) w1)
    by by_computation.
  split; [exact Hc|]. split; [exact Hd|].
  destruct (Delete_failure_loses_entry_keeps_quota _ _ _ _ _ _ _ _ Hc Hd)
    as (_ & _ & Hs & Hg & Hdel).
  split; [exact Hs|]. split; [exact Hg | exact Hdel].
Defined.

End Witnesses.

Section MoreWitnesses.

Import Sample Examples.

Local Ltac by_computation := vm_compute; first [reflexivity | congruence | tauto].

(** A file written half a lifetime before the start is due half a
    lifetime after it when the store has room, and is refused by the
    store that is full. *)
Lemma Recover_fresh_file_witness :
  (hasSpaceFor (stats s1) (Size fresh) = None /\
   exists s' w',
     Recover lifeTime startTime idFromPath s1 (pathFromID id2) fresh None
             noRecoverFault wFresh = (None, s', w') /\
     cache s' !! id2 =
       Some (mkCache 0 (startTime - lifeTime / 2) (pathFromID id2) (mkSlice 2 3) 3) /\
     timers w' = [(id2, lifeTime / 2)] /\
     exists p w'', Get s' id2 w' = (Ok p, w'') /\ ReadAll p w'' = Some foo) /\
  (hasSpaceFor (stats sFull) (Size fresh) = Some QuotaExceeded /\
   Recover lifeTime startTime idFromPath sFull (pathFromID id2) fresh None
           noRecoverFault wFresh = (Some QuotaExceeded, sFull, wFresh)).
Proof.
  assert (Hid : idFromPath (pathFromID id2) = Ok id2) by by_computation.
  assert (Hlive : ~ (0 < lifeTime /\ ModTime fresh + lifeTime - startTime <= 0)).
  { vm_compute. intros [_ Hle]. now apply Hle. }
  assert (Hsz : Size fresh <> 0) by discriminate.
  split.
  - assert (Hq : hasSpaceFor (stats s1) (Size fresh) = None) by by_computation.
    split; [exact Hq|].
    destruct (proj2 (Recover_survivor_registered_or_refused
                       lifeTime startTime idFromPath s1 (pathFromID id2) fresh
                       noRecoverFault wFresh id2 eq_refl Hid Hlive Hsz)
                    Hq (mkFile foo (ModTime fresh)))
      as (s' & w' & HR & Hc & _ & _ & Ht & _ & p & w'' & Hg & Hr & _).
    + by_computation.
    + reflexivity.
    + reflexivity.
    + reflexivity.
    + exists s', w'. split; [exact HR|]. split; [exact Hc|].
      split; [apply Ht; reflexivity|].
      exists p, w''. split; [exact Hg | exact Hr].
  - assert (Hq : hasSpaceFor (stats sFull) (Size fresh) = Some QuotaExceeded)
      by by_computation.
    split; [exact Hq|].
    exact (proj1 (Recover_survivor_registered_or_refused
                    lifeTime startTime idFromPath sFull (pathFromID id2) fresh
                    noRecoverFault wFresh id2 eq_refl Hid Hlive Hsz)
                 QuotaExceeded Hq).
Defined.

(** C5, as stated, fails where the quota is used up: the file passes both
    checks, [Recover] returns the quota error, and the id has neither an
    entry nor a handle nor a timer. *)
Lemma Recover_survivor_without_room_counterexample :
  IsDir fresh = false /\
  idFromPath (pathFromID id2) = Ok id2 /\
  ~ (0 < lifeTime /\ ModTime fresh + lifeTime - startTime <= 0) /\
  Size fresh <> 0 /\
  fs wFresh !! pathFromID id2 = Some (mkFile foo (ModTime fresh)) /\
  Recover lifeTime startTime idFromPath sFull (pathFromID id2) fresh None
          noRecoverFault wFresh = (Some QuotaExceeded, sFull, wFresh) /\
  Get sFull id2 wFresh = (Err ErrPasteNotFound, wFresh) /\
  ~ survivor_registered lifeTime startTime idFromPath sFull (pathFromID id2)
      fresh noRecoverFault wFresh id2.
Proof.
  assert (HR : Recover lifeTime startTime idFromPath sFull (pathFromID id2)
                 fresh None noRecoverFault wFresh =
               (Some QuotaExceeded, sFull, wFresh)) by by_computation.
  assert (HG : Get sFull id2 wFresh = (Err ErrPasteNotFound, wFresh))
    by by_computation.
  split; [reflexivity|]. split; [by_computation|].
  split; [vm_compute; intros [_ Hle]; now apply Hle|].
  split; [discriminate|]. split; [by_computation|].
  split; [exact HR|]. split; [exact HG|].
  unfold survivor_registered. rewrite HR, HG.
  intros [_ (p & w'' & Hp)]. discriminate Hp.
Qed.

Lemma Recover_malformed_entries_witness :
  (Recover lifeTime startTime idFromPath (store 0 0)
           (we_path emptyEntry) (we_info emptyEntry) (we_err emptyEntry)
           (we_env emptyEntry) wWalk =
     (None, store 0 0, set_fs wWalk (delete (we_path emptyEntry) (fs wWalk))) /\
   setupSubdirs lifeTime startTime idFromPath [emptyEntry; goodEntry]
                (store 0 0) wWalk =
     setupSubdirs lifeTime startTime idFromPath [goodEntry] (store 0 0)
                  (set_fs wWalk (delete (we_path emptyEntry) (fs wWalk)))) /\
  (Recover lifeTime startTime idFromPath (store 0 0)
           (we_path strayEntry) (we_info strayEntry) (we_err strayEntry)
           (we_env strayEntry) wWalk =
     (Some (ErrOther "invalid path"), store 0 0, wWalk) /\
   setupSubdirs lifeTime startTime idFromPath [strayEntry; goodEntry]
                (store 0 0) wWalk =
     (Some (ErrOther "invalid path"), store 0 0, wWalk)).
Proof.
  split.
  - destruct (Recover_empty_file_discarded_unparsable_name_aborts
                lifeTime startTime idFromPath emptyEntry [goodEntry]
                (store 0 0) wWalk eq_refl eq_refl) as [Hempty _].
    destruct (Hempty id1) as (HR & _ & HW).
    + by_computation.
    + reflexivity.
    + reflexivity.
    + exists (mkFile [] (ModTime empty)). by_computation.
    + split; [exact HR | exact HW].
  - destruct (Recover_empty_file_discarded_unparsable_name_aborts
                lifeTime startTime idFromPath strayEntry [goodEntry]
                (store 0 0) wWalk eq_refl eq_refl) as [_ Hstray].
    apply Hstray. by_computation.
Defined.

(** C6, as stated, fails at a name that does not parse: [Recover] returns
    the error, the file stays where it is, the walk stops before the good
    file that follows, and there is no store. *)
Lemma Recover_unparsable_name_counterexample :
  IsDir (we_info strayEntry) = false /\
  idFromPath (we_path strayEntry) = Err (ErrOther "invalid path") /\
  Recover lifeTime startTime idFromPath (store 0 0)
          (we_path strayEntry) (we_info strayEntry) (we_err strayEntry)
          (we_env strayEntry) wWalk =
    (Some (ErrOther "invalid path"), store 0 0, wWalk) /\
  is_Some (fs wWalk !! we_path strayEntry) /\
  setupSubdirs lifeTime startTime idFromPath [strayEntry; goodEntry]
               (store 0 0) wWalk =
    (Some (ErrOther "invalid path"), store 0 0, wWalk) /\
  NewMmapStore lifeTime startTime idFromPath "pastes" [strayEntry; goodEntry]
               wWalk = (Err (ErrOther "invalid path"), wWalk) /\
  (exists s w, NewMmapStore lifeTime startTime idFromPath "pastes" [goodEntry]
                            wWalk = (Ok s, w) /\ is_Some (cache s !! id2)) /\
  ~ handled_locally lifeTime startTime idFromPath strayEntry [goodEntry]
      (store 0 0) wWalk.
Proof.
  assert (HR : Recover lifeTime startTime idFromPath (store 0 0)
                 (we_path strayEntry) (we_info strayEntry) (we_err strayEntry)
                 (we_env strayEntry) wWalk =
               (Some (ErrOther "invalid path"), store 0 0, wWalk))
    by by_computation.
  split; [reflexivity|]. split; [by_computation|]. split; [exact HR|].
  split; [eexists; by_computation|].
  split; [by_computation|]. split; [by_computation|].
  split.
  - eexists _, _. split; [vm_compute; reflexivity|]. eexists. by_computation.
  - unfold handled_locally. rewrite HR. intros [Hnone _]. discriminate Hnone.
Qed.

Lemma handlePost_unreserved_release_witness :
  hasSpaceFor fullStats (Z.of_nat (length foo)) = Some QuotaExceeded /\
  let x' := fst (Handler.handlePost "http://paste.cat" lifeTime
                   Handler.sampleError failing Handler.newResponse postFoo) in
  Handler.st_stats x' = mkStats 0 1 0 0 /\
  number (Handler.st_stats x') <> number fullStats.
Proof.
  assert (Hq : hasSpaceFor fullStats (Z.of_nat (length foo)) = Some QuotaExceeded)
    by by_computation.
  split; [exact Hq|].
  assert (HP : Handler.sPut foo (Handler.st_store failing) =
               (id1, Some noMemory, [])) by reflexivity.
  destruct (handlePost_failed_Put_after_failed_reservation_changes_quota
              "http://paste.cat" lifeTime Handler.sampleError failing
              Handler.newResponse postFoo foo QuotaExceeded noMemory id1 []
              eq_refl Hq HP) as (Hs & _ & _ & Hne).
  - unfold Int64.in64, Int64.min, Int64.max. cbn. lia.
  - split; [rewrite Hs; by_computation | exact Hne].
Defined.

Lemma handlePost_goes_on_witness :
  hasSpaceFor fullStats (Z.of_nat (length foo)) = Some QuotaExceeded /\
  let result := Handler.handlePost "http://paste.cat" lifeTime
                  Handler.sampleError accepting Handler.newResponse postFoo in
  Handler.status (snd result) = Some 503 /\
  Handler.st_timers (fst result) = [(id1, 3, lifeTime)] /\
  Handler.body (snd result) =
    (("quota exceeded" ++ Handler.newline) ++
     ("http://paste.cat/a63d03b9" ++ Handler.newline))%string.
Proof.
  assert (Hq : hasSpaceFor fullStats (Z.of_nat (length foo)) = Some QuotaExceeded)
    by by_computation.
  split; [exact Hq|].
  assert (HP : Handler.sPut foo (Handler.st_store accepting) =
               (id1, None, [])) by reflexivity.
  destruct (handlePost_does_not_return_after_failed_reservation
              "http://paste.cat" lifeTime Handler.sampleError accepting
              postFoo foo QuotaExceeded id1 None [] eq_refl Hq HP)
    as (Hst & _ & Ht & Hb).
  split; [exact Hst|]. split.
  - apply Ht. by_computation.
  - exact Hb.
Defined.

End MoreWitnesses.

(** * Further properties of the mapped store *)

(** ** [Put] *)

(** X1: a [Put] that returns an error has registered nothing and mapped
    nothing: the store, the mappings and the heap are as before.  The
    file system is as before too, unless the failure came after the file
    was written: then the new file stays on disk, without an entry. *)
Theorem Put_failure_registers_nothing
    (pathFromID : ID -> string) (s s' : MmapStore) (data : list Byte.byte)
    (env : PutEnv) (w w' : World) (id : ID) (e : error) :
  Put pathFromID s data env w = (id, Some e, s', w') ->
  s' = s /\ vm w' = vm w /\ brk w' = brk w /\ heap w' = heap w /\
  timers w' = timers w /\
  (fs w' = fs w \/
   (write_fault env = None /\ cache s !! id = None /\
    fs w' = <[pathFromID id := mkFile data (now env)]> (fs w))).
Proof.
  unfold Put. cbv zeta.
  destruct (hasSpaceFor _ _); [intros [= _ _ <- <-]; repeat split; auto|].
  unfold randomID.
  destruct (List.find _ _) as [id0|] eqn:Hfind;
    [|intros [= _ _ <- <-]; repeat split; auto].
  apply List.find_some in Hfind as [_ Havail].
  apply bool_decide_eq_true in Havail.
  unfold writeNewFile.
  destruct (write_fault env) as [e1|];
    [intros [= _ _ <- <-]; repeat split; auto|].
  unfold getMmap, OS.Mmap.
  destruct (Z.of_nat (length data) <=? 0).
  { intros [= <- _ <- <-]. repeat split; auto. }
  destruct (OS.Open _ _ _).
  - destruct (mmap_fault env); [|discriminate].
    intros [= <- _ <- <-]. repeat split; auto.
  - intros [= <- _ <- <-]. repeat split; auto.
Qed.

(** X2: empty content cannot be put.  When the quota check passes, an id
    is drawn and the file is written, the mapping of zero bytes is refused
    with [EINVAL]: [Put] returns that error with the store unchanged, and
    the empty file it wrote stays on disk. *)
Theorem Put_empty_content_fails_after_writing
    (pathFromID : ID -> string) (s : MmapStore) (env : PutEnv) (w : World)
    (id : ID) :
  hasSpaceFor (stats s) 0 = None ->
  List.find (fun i : ID => bool_decide (cache s !! i = None)) (draws env) = Some id ->
  write_fault env = None ->
  Put pathFromID s [] env w =
    (id, Some EINVAL, s,
     set_fs w (<[pathFromID id := mkFile [] (now env)]> (fs w))).
Proof.
  intros Hq Hfind Hw. unfold Put. cbv zeta.
  change (Z.of_nat (length (@nil Byte.byte))) with 0.
  rewrite Hq. unfold randomID. rewrite Hfind.
  unfold writeNewFile. rewrite Hw. reflexivity.
Qed.

(** X3: [Put] never disturbs the pastes that are there: whatever it
    returns, every entry of the table is still there, unchanged; and the
    id of a successful [Put] was free before and now has an entry of the
    content's size. *)
Theorem Put_keeps_the_other_pastes
    (pathFromID : ID -> string) (s s' : MmapStore) (data : list Byte.byte)
    (env : PutEnv) (w w' : World) (id : ID) (r : option error) :
  Put pathFromID s data env w = (id, r, s', w') ->
  (forall id' c, cache s !! id' = Some c -> cache s' !! id' = Some c) /\
  (r = None ->
     cache s !! id = None /\
     exists c, cache s' !! id = Some c /\
               size c = Z.of_nat (length data) /\
               path c = pathFromID id /\ modTime c = now env).
Proof.
  intros H. destruct r as [e|].
  - rewrite (Put_failure_keeps_store _ _ _ _ _ _ _ _ _ H).
    split; [auto | discriminate].
  - apply Put_success_inv in H as (_ & Hfree & _ & -> & _). cbn [cache]. split.
    + intros id' c Hc. rewrite lookup_insert_ne; [exact Hc|].
      intros ->. congruence.
    + intros _. split; [exact Hfree|].
      eexists. rewrite lookup_insert_eq. split; [reflexivity|]. now cbn.
Qed.

(** ** [Delete] *)

(** X4: a [Delete] that returns no error took exactly its entry out of
    the table, unmapped that entry's region, removed that entry's file and
    released that entry's size; every other entry is as before. *)
Theorem Delete_success_effects
    (s s' : MmapStore) (id : ID) (env : DeleteEnv) (w w' : World)
    (c : mmapCache) :
  cache s !! id = Some c ->
  Delete s id env w = Returns None s' w' ->
  cache s' = delete id (cache s) /\
  (forall id', id' <> id -> cache s' !! id' = cache s !! id') /\
  stats s' = freeSpace (stats s) (size c) /\
  vm w' = delete (addr (mmap c)) (vm w) /\
  fs w' = delete (path c) (fs w) /\
  heap w' = heap w /\ timers w' = timers w.
Proof.
  intros Hc. unfold Delete. rewrite Hc.
  destruct (0 <? reading c); [discriminate|].
  unfold OS.Munmap.
  destruct (slen (mmap c)); [discriminate|].
  destruct (vm w !! addr (mmap c)); [|discriminate].
  destruct (munmap_fault env); [discriminate|].
  unfold OS.Remove.
  destruct (remove_fault env); [discriminate|].
  cbn [fs set_vm]. destruct (fs w !! path c); [|discriminate].
  intros [= <- <-]. cbn. repeat split; auto.
  intros id' Hne. now apply lookup_delete_ne.
Qed.

(** X5: putting a paste and deleting it again gives back the table, the
    quota counters, the files and the mappings there were before (the
    path and the fresh address being unused before, and the counters
    being machine integers). *)
Theorem Put_then_Delete_restores
    (pathFromID : ID -> string) (s s' : MmapStore) (data : list Byte.byte)
    (env : PutEnv) (w w' : World) (id : ID) :
  Int64.in64 (number (stats s)) ->
  Int64.in64 (storage (stats s)) ->
  fs w !! pathFromID id = None ->
  vm w !! brk w = None ->
  Put pathFromID s data env w = (id, None, s', w') ->
  exists s'' w'',
    Delete s' id noDeleteFault w' = Returns None s'' w'' /\
    cache s'' = cache s /\ stats s'' = stats s /\ dir s'' = dir s /\
    fs w'' = fs w /\ vm w'' = vm w.
Proof.
  intros Hn Hs Hfs Hvm H.
  apply Put_success_inv in H as (_ & Hfree & Hpos & -> & ->).
  unfold Delete. cbn [cache]. rewrite lookup_insert_eq.
  cbn [reading Z.ltb Z.compare mmap path size stats dir].
  unfold OS.Munmap. cbn [slen addr noDeleteFault munmap_fault remove_fault].
  destruct (length data) as [|k] eqn:Hlen; [cbn in Hpos; lia|].
  cbn [vm set_vm]. rewrite lookup_insert_eq.
  unfold OS.Remove. cbn [fs set_vm set_fs]. rewrite lookup_insert_eq.
  eexists _, _. split; [reflexivity|]. cbn.
  rewrite !delete_insert_id by assumption.
  repeat split; auto.
  destruct (stats s) as [num maxN sto maxS]. unfold freeSpace, makeSpaceFor.
  cbn in *. now rewrite !wrap64_add_sub.
Qed.

(** ** [Recover] and the file system *)

Lemma setupPasteDeletion_keeps (lifeTime : Z) (w : World) (id : ID) (after : Z) :
  let w' := setupPasteDeletion lifeTime w id after in
  fs w' = fs w /\ vm w' = vm w /\ brk w' = brk w /\ heap w' = heap w.
Proof. unfold setupPasteDeletion. now destruct (lifeTime =? 0). Qed.

(** All that [Recover] can do: leave the store alone and at most remove
    the file, which it does only to an expired or empty one; or register
    the file under a fresh mapping, leaving the files alone. *)
Lemma Recover_world_cases (lifeTime startTime : Z)
    (idFromPath : string -> result ID)
    (s s' : MmapStore) (path : string) (fileInfo : FileInfo)
    (err e : option error) (env : RecoverEnv) (w w' : World) :
  Recover lifeTime startTime idFromPath s path fileInfo err env w = (e, s', w') ->
  (s' = s /\ vm w' = vm w /\ brk w' = brk w /\ heap w' = heap w /\
   timers w' = timers w /\
   (fs w' = fs w \/
    (fs w' = delete path (fs w) /\ err = None /\ IsDir fileInfo = false /\
     (exists id, idFromPath path = Ok id) /\
     (expired lifeTime startTime fileInfo \/ Size fileInfo = 0)))) \/
  (exists id data,
     idFromPath path = Ok id /\ 0 < Size fileInfo /\ e = None /\
     ~ expired lifeTime startTime fileInfo /\
     s' = mkStore (<[id := mkCache 0 (ModTime fileInfo) path
                             (mkSlice (brk w) (Z.to_nat (Size fileInfo)))
                             (Size fileInfo)]> (cache s))
                  (dir s) (makeSpaceFor (stats s) (Size fileInfo)) /\
     vm w' = <[brk w := data]> (vm w) /\ brk w' = N.succ (brk w) /\
     fs w' = fs w /\ heap w' = heap w /\
     exists f, fs w !! path = Some f /\
               data = take (Z.to_nat (Size fileInfo)) (OS.backing (pagesize w) f)).
Proof.
  unfold Recover.
  destruct (bool_decide (err <> None)) eqn:Herr; cbn [orb].
  { intros [= _ <- <-]. left. repeat split; auto. }
  apply bool_decide_eq_false in Herr.
  assert (Herr' : err = None) by (destruct err; [exfalso; apply Herr|]; congruence).
  destruct (IsDir fileInfo) eqn:Hdir.
  { intros [= _ <- <-]. left. repeat split; auto. }
  destruct (idFromPath path) as [id|e0] eqn:Hid;
    [|intros [= _ <- <-]; left; repeat split; auto].
  cbv zeta.
  destruct ((0 <? lifeTime) && _) eqn:Hexp.
  { apply expired_test in Hexp.
    unfold OS.Remove. destruct (rec_remove_fault env).
    - intros [= _ <- <-]. left. repeat split; auto.
    - destruct (fs w !! path); intros [= _ <- <-]; left; repeat split; auto.
      right. repeat split; eauto. }
  assert (Hlive : ~ expired lifeTime startTime fileInfo).
  { intros Hx. apply expired_test in Hx. congruence. }
  destruct (Z.eqb_spec (Size fileInfo) 0) as [Hz|Hnz].
  { unfold OS.Remove. destruct (rec_remove_fault env).
    - intros [= _ <- <-]. left. repeat split; auto.
    - destruct (fs w !! path); intros [= _ <- <-]; left; repeat split; auto.
      right. repeat split; eauto. }
  destruct (hasSpaceFor _ _); [intros [= _ <- <-]; left; repeat split; auto|].
  unfold getMmap, OS.Mmap.
  destruct (Z.leb_spec (Size fileInfo) 0);
    [intros [= _ <- <-]; left; repeat split; auto|].
  destruct (OS.Open _ _ _) as [f|] eqn:Hopen;
    [|intros [= _ <- <-]; left; repeat split; auto].
  assert (Hf : fs w !! path = Some f).
  { unfold OS.Open in Hopen. now destruct (rec_open_fault env). }
  destruct (rec_mmap_fault env); [intros [= _ <- <-]; left; repeat split; auto|].
  intros [= <- <- <-]. right.
  destruct (setupPasteDeletion_keeps lifeTime
              (set_vm w (<[brk w:=take (Z.to_nat (Size fileInfo))
                                       (OS.backing (pagesize w) f)]> (vm w))
                      (N.succ (brk w))) id
              (Sub (ModTime fileInfo + lifeTime) startTime))
    as (Hfs & Hvm & Hbrk & Hheap).
  exists id, (take (Z.to_nat (Size fileInfo)) (OS.backing (pagesize w) f)).
  rewrite Hfs, Hvm, Hbrk, Hheap. repeat split; eauto.
Qed.

(** ** Reachable states *)

Lemma mapped_register (s : MmapStore) (w : World) (id : ID) (t : Z)
    (p : string) (n : Z) (k : nat) (data : list Byte.byte)
    (st : Stats) (w' : World) :
  mapped s w ->
  0 < n -> k <> 0%nat ->
  vm w' = <[brk w := data]> (vm w) ->
  brk w' = N.succ (brk w) ->
  mapped (mkStore (<[id := mkCache 0 t p (mkSlice (brk w) k) n]> (cache s))
                  (dir s) st) w'.
Proof.
  intros [Hent Hsep] Hn Hk Hvm Hbrk. split; cbn [cache].
  - intros j c. rewrite lookup_insert. case_decide.
    + intros [= <-]. cbn. rewrite Hvm, Hbrk, lookup_insert_eq.
      repeat split; eauto. lia.
    + intros Hc. destruct (Hent j c Hc) as (Hr & Hsz & Hlen & Hlt & Hlive).
      rewrite Hvm, Hbrk. rewrite lookup_insert_ne by lia.
      repeat split; auto. lia.
  - intros j1 j2 c1 c2 Hne. rewrite !lookup_insert.
    repeat case_decide; try congruence.
    + intros [= <-] Hc2. cbn. destruct (Hent j2 c2 Hc2) as (_ & _ & _ & Hlt & _). lia.
    + intros Hc1 [= <-]. cbn. destruct (Hent j1 c1 Hc1) as (_ & _ & _ & Hlt & _). lia.
    + now apply Hsep.
Qed.

Lemma mapped_same_store (s : MmapStore) (w w' : World) :
  mapped s w -> vm w' = vm w -> brk w' = brk w -> mapped s w'.
Proof.
  intros [Hent Hsep] Hvm Hbrk. split; [|exact Hsep].
  intros j c Hc. rewrite Hvm, Hbrk. now apply (Hent j).
Qed.

Lemma mapped_delete (s : MmapStore) (w w' : World) (id : ID) (st : Stats) :
  mapped s w ->
  brk w' = brk w ->
  (vm w' = vm w \/
   exists c, cache s !! id = Some c /\ vm w' = delete (addr (mmap c)) (vm w)) ->
  mapped (mkStore (delete id (cache s)) (dir s) st) w'.
Proof.
  intros [Hent Hsep] Hbrk Hvm. split; cbn [cache].
  - intros j c Hj. apply lookup_delete_Some in Hj as [Hne Hj].
    destruct (Hent j c Hj) as (Hr & Hsz & Hlen & Hlt & Hlive).
    rewrite Hbrk. repeat split; auto.
    destruct Hvm as [-> | (c0 & Hc0 & ->)]; [exact Hlive|].
    rewrite lookup_delete_ne; [exact Hlive|].
    apply (Hsep id j c0 c); auto.
  - intros j1 j2 c1 c2 Hne H1 H2.
    apply lookup_delete_Some in H1 as [_ H1].
    apply lookup_delete_Some in H2 as [_ H2]. now apply (Hsep j1 j2).
Qed.

(** A failing [Put] and the mappings. *)
Lemma Put_failure_keeps_mappings
    (pathFromID : ID -> string) (s s' : MmapStore) (data : list Byte.byte)
    (env : PutEnv) (w w' : World) (id : ID) (e : error) :
  Put pathFromID s data env w = (id, Some e, s', w') ->
  s' = s /\ vm w' = vm w /\ brk w' = brk w.
Proof.
  unfold Put. cbv zeta.
  destruct (hasSpaceFor _ _); [intros [= _ _ <- <-]; auto|].
  destruct (randomID _ _); [|intros [= _ _ <- <-]; auto].
  unfold writeNewFile.
  destruct (write_fault env) as [e1|]; [intros [= _ _ <- <-]; auto|].
  unfold getMmap, OS.Mmap.
  destruct (Z.of_nat (length data) <=? 0); [intros [= _ _ <- <-]; auto|].
  destruct (OS.Open _ _ _).
  - destruct (mmap_fault env); [|discriminate]. intros [= _ _ <- <-]. auto.
  - intros [= _ _ <- <-]. auto.
Qed.

Section Reachable.

Variable lifeTime : Z.
Variable startTime : Z.
Variable idFromPath : string -> result ID.
Variable pathFromID : ID -> string.

Local Abbreviation step1 := (step lifeTime startTime idFromPath pathFromID).
Local Abbreviation runs := (run lifeTime startTime idFromPath pathFromID).

Lemma step_preserves_mapped (o : op) (s s' : MmapStore) (w w' : World)
    (live : bool) :
  mapped s w -> step1 o s w = (s', w', live) -> mapped s' w'.
Proof.
  intros Hm.
  destruct o as [data env | id env | path fileInfo err env]; cbn [step].
  - destruct (Put _ _ _ _ _) as [[[id [e|]] s1] w1] eqn:HP; intros [= <- <- <-].
    + apply Put_failure_keeps_mappings in HP as (-> & Hvm & Hbrk).
      now apply mapped_same_store with (w := w).
    + apply Put_success_inv in HP as (_ & _ & Hpos & -> & ->).
      apply mapped_register with (w := w) (data := data); auto.
      intros Hz. rewrite Hz in Hpos. cbn in Hpos. lia.
  - unfold Delete. destruct (cache s !! id) as [c|] eqn:Hc;
      [|intros [= <- <- <-]; exact Hm].
    destruct (0 <? reading c).
    { intros [= <- <- <-]. apply (mapped_delete s w _ id); auto. }
    unfold OS.Munmap.
    destruct (slen (mmap c));
      [intros [= <- <- <-]; apply (mapped_delete s w _ id); auto|].
    destruct (vm w !! addr (mmap c));
      [|intros [= <- <- <-]; apply (mapped_delete s w _ id); auto].
    destruct (munmap_fault env);
      [intros [= <- <- <-]; apply (mapped_delete s w _ id); auto|].
    unfold OS.Remove.
    destruct (remove_fault env).
    { intros [= <- <- <-]. apply (mapped_delete s w _ id); eauto. }
    cbn [fs set_vm].
    destruct (fs w !! path c); intros [= <- <- <-];
      apply (mapped_delete s w _ id); cbn; eauto.
  - destruct (Recover _ _ _ _ _ _ _ _ _) as [[e s1] w1] eqn:HR. intros [= <- <- <-].
    apply Recover_world_cases in HR
      as [(-> & Hvm & Hbrk & _) | (id & data & _ & Hpos & _ & _ & -> & Hvm & Hbrk & _)].
    + now apply mapped_same_store with (w := w).
    + apply mapped_register with (w := w) (data := data); auto. lia.
Qed.

Lemma run_preserves_mapped (ops : list op) (s : MmapStore) (w : World) :
  mapped s w -> mapped (fst (runs ops s w)) (snd (runs ops s w)).
Proof.
  revert s w. induction ops as [|o ops IH]; intros s w Hm; [exact Hm|].
  cbn [run]. destruct (step1 o s w) as [[s1 w1] live] eqn:Hstep.
  pose proof (step_preserves_mapped _ _ _ _ _ _ Hm Hstep) as Hm1.
  destruct live; [now apply IH | exact Hm1].
Qed.

End Reachable.

Lemma mapped_empty (d : string) (st : Stats) (w : World) :
  mapped (mkStore ∅ d st) w.
Proof.
  split; cbn [cache].
  - intros id c H. now rewrite lookup_empty in H.
  - intros id1 id2 c1 c2 _ H. now rewrite lookup_empty in H.
Qed.

(** All that [Delete] can do to the table and the mappings. *)
Lemma Delete_cases (s : MmapStore) (id : ID) (env : DeleteEnv) (w : World) :
  (cache s !! id = None /\
   Delete s id env w = Returns (Some ErrPasteNotFound) s w) \/
  (exists c st w',
     cache s !! id = Some c /\
     ((exists r, Delete s id env w =
                   Returns r (mkStore (delete id (cache s)) (dir s) st) w') \/
      Delete s id env w = Blocks (mkStore (delete id (cache s)) (dir s) st) w') /\
     brk w' = brk w /\
     (vm w' = vm w \/ vm w' = delete (addr (mmap c)) (vm w))).
Proof.
  unfold Delete. destruct (cache s !! id) as [c|] eqn:Hc; [right | now left].
  exists c.
  destruct (0 <? reading c); [eexists _, _; eauto 10|].
  unfold OS.Munmap.
  destruct (slen (mmap c)); [eexists _, _; eauto 10|].
  destruct (vm w !! addr (mmap c)); [|eexists _, _; eauto 10].
  destruct (munmap_fault env); [eexists _, _; eauto 10|].
  unfold OS.Remove.
  destruct (remove_fault env); [eexists _, _; split; [reflexivity|]; eauto 10|].
  cbn [fs set_vm].
  destruct (fs w !! path c); eexists _, _; (split; [reflexivity|]); eauto 10.
Qed.

Section Persistence.

Variable lifeTime : Z.
Variable startTime : Z.
Variable idFromPath : string -> result ID.
Variable pathFromID : ID -> string.

Local Abbreviation step1 := (step lifeTime startTime idFromPath pathFromID).
Local Abbreviation runs := (run lifeTime startTime idFromPath pathFromID).

(** An operation that leaves [id] alone leaves its entry and the bytes of
    its region as they are. *)
Lemma step_leaves_entry (o : op) (s s' : MmapStore) (w w' : World)
    (live : bool) (id : ID) (c : mmapCache) (data : list Byte.byte) :
  mapped s w ->
  cache s !! id = Some c ->
  vm w !! addr (mmap c) = Some data ->
  leaves idFromPath id o ->
  step1 o s w = (s', w', live) ->
  cache s' !! id = Some c /\ vm w' !! addr (mmap c) = Some data.
Proof.
  intros Hm Hc Hdata Hleave.
  destruct (proj1 Hm id c Hc) as (_ & _ & _ & Hlt & _).
  destruct o as [content env | id' env | path fileInfo err env]; cbn [step].
  - destruct (Put _ _ _ _ _) as [[[id' [e|]] s1] w1] eqn:HP; intros [= <- <- <-].
    + apply Put_failure_keeps_mappings in HP as (-> & -> & _). auto.
    + apply Put_success_inv in HP as (_ & Hfree & _ & -> & ->). cbn.
      rewrite !lookup_insert_ne; auto; [lia | congruence].
  - cbn in Hleave.
    destruct (Delete_cases s id' env w)
      as [[_ ->] | (c' & st & w1 & Hc' & HD & _ & Hvm)].
    { intros [= <- <- <-]. auto. }
    assert (Hsep : addr (mmap c') <> addr (mmap c))
      by (apply (proj2 Hm id' id c' c); auto).
    assert (Hvm' : vm w1 !! addr (mmap c) = Some data).
    { destruct Hvm as [-> | ->]; [exact Hdata|]. now rewrite lookup_delete_ne. }
    destruct HD as [[r ->] | ->]; intros [= <- <- <-]; cbn;
      (split; [now rewrite lookup_delete_ne | exact Hvm']).
  - cbn in Hleave.
    destruct (Recover _ _ _ _ _ _ _ _ _) as [[e s1] w1] eqn:HR. intros [= <- <- <-].
    apply Recover_world_cases in HR
      as [(-> & -> & _) | (id' & d' & Hid & _ & _ & _ & -> & -> & _)]; [auto|].
    cbn. rewrite !lookup_insert_ne; auto; [lia | congruence].
Qed.

Lemma run_leaves_entry (ops : list op) (s : MmapStore) (w : World)
    (id : ID) (c : mmapCache) (data : list Byte.byte) :
  mapped s w ->
  cache s !! id = Some c ->
  vm w !! addr (mmap c) = Some data ->
  Forall (leaves idFromPath id) ops ->
  cache (fst (runs ops s w)) !! id = Some c /\
  vm (snd (runs ops s w)) !! addr (mmap c) = Some data.
Proof.
  revert s w. induction ops as [|o ops IH]; intros s w Hm Hc Hdata Hl; [now cbn|].
  apply Forall_cons in Hl as [Ho Hops].
  cbn [run]. destruct (step1 o s w) as [[s1 w1] live] eqn:Hstep.
  destruct (step_leaves_entry _ _ _ _ _ _ _ _ _ Hm Hc Hdata Ho Hstep) as [Hc1 Hd1].
  pose proof (step_preserves_mapped _ _ _ _ _ _ _ _ _ _ Hm Hstep) as Hm1.
  destruct live; [now apply IH | now cbn].
Qed.

End Persistence.

(** X7: in every state reached from an empty store by any sequence of
    [Put], [Delete] and [Recover] calls, [Delete] returns: it never waits
    for a reader, whichever handles are open. *)
Theorem Delete_returns_in_every_reachable_state
    (lifeTime startTime : Z) (idFromPath : string -> result ID)
    (pathFromID : ID -> string) (d : string) (st : Stats) (w0 : World)
    (ops : list op) (id : ID) (env : DeleteEnv) :
  let state := run lifeTime startTime idFromPath pathFromID ops (mkStore ∅ d st) w0 in
  exists err s' w', Delete (fst state) id env (snd state) = Returns err s' w'.
Proof.
  intros state.
  pose proof (run_preserves_mapped lifeTime startTime idFromPath pathFromID
                ops _ w0 (mapped_empty d st w0)) as [Hent _].
  fold state in Hent.
  destruct (Delete_cases (fst state) id env (snd state))
    as [[_ ->] | (c & st' & w' & Hc & [[r ->] | HB] & _)]; eauto.
  exfalso. destruct (Hent id c Hc) as (Hr & _).
  unfold Delete in HB. rewrite Hc, Hr in HB. cbn in HB.
  destruct (OS.Munmap _ _ _) as [[?|] ?]; [discriminate|].
  destruct (OS.Remove _ _ _) as [[?|] ?]; discriminate.
Qed.

(** Registering an entry whose region covers its slice. *)
Lemma covered_register (s : MmapStore) (w w' : World) (id : ID) (t : Z)
    (p : string) (n : Z) (k : nat) (data : list Byte.byte) (st : Stats) :
  mapped s w ->
  covered s w ->
  Z.of_nat k = n -> (k <= length data)%nat ->
  vm w' = <[brk w := data]> (vm w) ->
  covered (mkStore (<[id := mkCache 0 t p (mkSlice (brk w) k) n]> (cache s))
                   (dir s) st) w'.
Proof.
  intros [Hent _] Hcov Hk Hlen Hvm j c. cbn [cache].
  rewrite lookup_insert. case_decide.
  - intros [= <-]. cbn. split; [exact Hk|].
    exists data. now rewrite Hvm, lookup_insert_eq.
  - intros Hc. destruct (Hcov j c Hc) as (Hsz & d0 & Hd0 & Hl0).
    destruct (Hent j c Hc) as (_ & _ & _ & Hlt & _).
    split; [exact Hsz|]. exists d0.
    rewrite Hvm, lookup_insert_ne by lia. auto.
Qed.

Lemma covered_same_store (s : MmapStore) (w w' : World) :
  covered s w -> vm w' = vm w -> covered s w'.
Proof. intros Hcov Hvm j c Hc. rewrite Hvm. now apply (Hcov j). Qed.

Lemma covered_delete (s : MmapStore) (w w' : World) (id : ID) (st : Stats) :
  mapped s w ->
  covered s w ->
  (vm w' = vm w \/
   exists c, cache s !! id = Some c /\ vm w' = delete (addr (mmap c)) (vm w)) ->
  covered (mkStore (delete id (cache s)) (dir s) st) w'.
Proof.
  intros [_ Hsep] Hcov Hvm j c Hj. cbn [cache] in Hj.
  apply lookup_delete_Some in Hj as [Hne Hj].
  destruct (Hcov j c Hj) as (Hsz & d0 & Hd0 & Hl0).
  split; [exact Hsz|]. exists d0. split; [|exact Hl0].
  destruct Hvm as [-> | (c0 & Hc0 & ->)]; [exact Hd0|].
  rewrite lookup_delete_ne; [exact Hd0|].
  apply (Hsep id j c0 c); auto.
Qed.

(** [Recover] keeps the regions covering the slices when the [FileInfo]
    it is handed is the file's. *)
Lemma Recover_preserves_covered (lifeTime startTime : Z)
    (idFromPath : string -> result ID)
    (s s' : MmapStore) (path : string) (fileInfo : FileInfo)
    (err e : option error) (env : RecoverEnv) (w w' : World) :
  mapped s w ->
  covered s w ->
  (forall f, fs w !! path = Some f -> describes fileInfo f) ->
  Recover lifeTime startTime idFromPath s path fileInfo err env w = (e, s', w') ->
  covered s' w'.
Proof.
  intros Hm Hcov Hinfo HR.
  apply Recover_world_cases in HR
    as [(-> & Hvm & _)
       | (id & data & _ & Hpos & _ & _ & -> & Hvm & _ & _ & _ & f & Hf & ->)].
  - now apply covered_same_store with (w := w).
  - destruct (Hinfo f Hf) as [Hsz _].
    apply covered_register with (w := w)
      (data := take (Z.to_nat (Size fileInfo)) (OS.backing (pagesize w) f)); auto.
    + lia.
    + rewrite Hsz, Nat2Z.id, backing_exact. reflexivity.
Qed.

Section Covered.

Variable lifeTime : Z.
Variable startTime : Z.
Variable idFromPath : string -> result ID.
Variable pathFromID : ID -> string.

Local Abbreviation step1 := (step lifeTime startTime idFromPath pathFromID).
Local Abbreviation runs := (run lifeTime startTime idFromPath pathFromID).
Local Abbreviation honest := (truthful lifeTime startTime idFromPath pathFromID).

Lemma step_preserves_covered (o : op) (s s' : MmapStore) (w w' : World)
    (live : bool) :
  mapped s w ->
  covered s w ->
  match o with
  | OpRecover path fileInfo _ _ =>
      forall f, fs w !! path = Some f -> describes fileInfo f
  | _ => True
  end ->
  step1 o s w = (s', w', live) ->
  covered s' w'.
Proof.
  intros Hm Hcov Hinfo.
  destruct o as [content env | id env | path fileInfo err env]; cbn [step].
  - destruct (Put _ _ _ _ _) as [[[id [e|]] s1] w1] eqn:HP; intros [= <- <- <-].
    + apply Put_failure_keeps_mappings in HP as (-> & Hvm & _).
      now apply covered_same_store with (w := w).
    + apply Put_success_inv in HP as (_ & _ & _ & -> & ->).
      apply covered_register with (w := w) (data := content); auto.
  - destruct (Delete_cases s id env w)
      as [[_ ->] | (c & st & w1 & Hc & HD & _ & Hvm)].
    { intros [= <- <- <-]. exact Hcov. }
    assert (Hcov1 : covered (mkStore (delete id (cache s)) (dir s) st) w1).
    { apply covered_delete with (w := w); auto.
      destruct Hvm as [Hvm | Hvm]; [now left | right; eauto]. }
    destruct HD as [[r ->] | ->]; intros [= <- <- <-]; exact Hcov1.
  - destruct (Recover _ _ _ _ _ _ _ _ _) as [[e s1] w1] eqn:HR. intros [= <- <- <-].
    exact (Recover_preserves_covered _ _ _ _ _ _ _ _ _ _ _ _ Hm Hcov Hinfo HR).
Qed.

Lemma run_preserves_covered (ops : list op) (s : MmapStore) (w : World) :
  mapped s w ->
  covered s w ->
  honest ops s w ->
  covered (fst (runs ops s w)) (snd (runs ops s w)).
Proof.
  revert s w. induction ops as [|o ops IH]; intros s w Hm Hcov Ht; [exact Hcov|].
  cbn [truthful] in Ht. destruct Ht as [Hinfo Hrest].
  cbn [run]. destruct (step1 o s w) as [[s1 w1] live] eqn:Hstep.
  pose proof (step_preserves_mapped _ _ _ _ _ _ _ _ _ _ Hm Hstep) as Hm1.
  pose proof (step_preserves_covered _ _ _ _ _ _ Hm Hcov Hinfo Hstep) as Hcov1.
  destruct live; [now apply IH | exact Hcov1].
Qed.

End Covered.

Lemma covered_empty (d : string) (st : Stats) (w : World) :
  covered (mkStore ∅ d st) w.
Proof. intros id c H. cbn in H. now rewrite lookup_empty in H. Qed.

(** X8: in every state reached from an empty store by a sequence of
    [Put], [Delete] and [Recover] calls in which each [Recover] is handed
    the [FileInfo] of the file on disk, each entry of the table can be
    read: [Get] on its id returns a handle whose full read does not fault
    and returns as many bytes as the entry's size, and that reports the
    entry's modification time and size. *)
Theorem entries_of_reachable_states_are_readable
    (lifeTime startTime : Z) (idFromPath : string -> result ID)
    (pathFromID : ID -> string) (d : string) (st : Stats) (w0 : World)
    (ops : list op) (id : ID) (c : mmapCache) :
  truthful lifeTime startTime idFromPath pathFromID ops (mkStore ∅ d st) w0 ->
  let state := run lifeTime startTime idFromPath pathFromID ops (mkStore ∅ d st) w0 in
  cache (fst state) !! id = Some c ->
  exists p w' bytes,
    Get (fst state) id (snd state) = (Ok p, w') /\
    ReadAll p w' = Some bytes /\
    Z.of_nat (length bytes) = size c /\
    PasteModTime p w' = Some (modTime c) /\
    PasteSize p w' = Some (size c).
Proof.
  intros Ht state Hc.
  pose proof (run_preserves_covered lifeTime startTime idFromPath pathFromID
                ops _ w0 (mapped_empty d st w0) (covered_empty d st w0) Ht) as Hcov.
  fold state in Hcov.
  destruct (Hcov id c Hc) as (Hsz & data & Hdata & Hlen).
  destruct (Get_reads_region _ _ _ _ _ Hc Hdata Hlen)
    as (p & w' & Hg & Hr & Htm & Hs & _).
  exists p, w', (take (slen (mmap c)) data).
  repeat split; auto. rewrite length_take. lia.
Qed.

(** X9: a paste that was put stays as it is until it is deleted.  After a
    successful [Put] into a state that satisfies the table's invariant,
    and any further operations that neither delete the id nor recover a
    file of that id, [Get] on the id returns a handle that reads exactly
    the content that was put, with the time and size of the [Put]. *)
Theorem put_content_stays_until_deleted
    (lifeTime startTime : Z) (idFromPath : string -> result ID)
    (pathFromID : ID -> string) (s0 s1 : MmapStore) (w0 w1 : World)
    (data : list Byte.byte) (env : PutEnv) (id : ID) (ops : list op) :
  mapped s0 w0 ->
  Put pathFromID s0 data env w0 = (id, None, s1, w1) ->
  Forall (leaves idFromPath id) ops ->
  let state := run lifeTime startTime idFromPath pathFromID ops s1 w1 in
  exists p w',
    Get (fst state) id (snd state) = (Ok p, w') /\
    ReadAll p w' = Some data /\
    PasteModTime p w' = Some (now env) /\
    PasteSize p w' = Some (Z.of_nat (length data)).
Proof.
  intros Hm HP Hl state.
  assert (Hm1 : mapped s1 w1).
  { apply (step_preserves_mapped lifeTime startTime idFromPath pathFromID
             (OpPut data env) s0 s1 w0 w1 true Hm).
    cbn [step]. now rewrite HP. }
  apply Put_success_inv in HP as (_ & _ & _ & Hs1 & Hw1).
  set (c := mkCache 0 (now env) (pathFromID id) (mkSlice (brk w0) (length data))
                    (Z.of_nat (length data))).
  assert (Hc : cache s1 !! id = Some c) by (rewrite Hs1; apply lookup_insert_eq).
  assert (Hd : vm w1 !! addr (mmap c) = Some data)
    by (rewrite Hw1; apply lookup_insert_eq).
  destruct (run_leaves_entry lifeTime startTime idFromPath pathFromID
              ops s1 w1 id c data Hm1 Hc Hd Hl) as [Hc' Hd'].
  fold state in Hc', Hd'.
  destruct (Get_reads_region _ _ _ _ _ Hc' Hd') as (p & w' & Hg & Hr & Ht & Hsz & _);
    [cbn; lia|].
  exists p, w'. cbn in Hr. rewrite firstn_all in Hr. auto.
Qed.

(** ** Handles *)

(** X10: every [Get] counts for itself.  Two handles taken for the same
    id point to two different copies of the entry; each copy's counter is
    one above the table's, the table's entry is not touched, and both
    handles read the same region. *)
Theorem Get_twice_counts_separately
    (s : MmapStore) (id : ID) (w w1 w2 : World) (c : mmapCache)
    (p1 p2 : MmapPaste) :
  cache s !! id = Some c ->
  Get s id w = (Ok p1, w1) ->
  Get s id w1 = (Ok p2, w2) ->
  pcache p1 <> pcache p2 /\
  content p1 = content p2 /\
  reading <$> heap w2 !! pcache p1 = Some (reading c + 1) /\
  reading <$> heap w2 !! pcache p2 = Some (reading c + 1) /\
  vm w2 = vm w /\ fs w2 = fs w.
Proof.
  intros Hc. rewrite (Get_present s id w c Hc). intros [= <- <-].
  rewrite (Get_present s id _ c Hc). intros [= <- <-]. cbn.
  split; [lia|]. split; [reflexivity|].
  rewrite lookup_insert_ne by lia. rewrite !lookup_insert_eq. now cbn.
Qed.

(** X11: closing a handle once brings its counter back to the table's
    value and touches neither the mapping nor the files, so the handle
    still reads what it read; closing it a second time panics, the
    counter being zero (as it is for every entry of a reachable store). *)
Theorem Close_once_then_panic
    (s : MmapStore) (id : ID) (w w1 : World) (c : mmapCache) (p : MmapPaste) :
  cache s !! id = Some c ->
  reading c = 0 ->
  Get s id w = (Ok p, w1) ->
  exists w2,
    Close p w1 = Some w2 /\
    reading <$> heap w2 !! pcache p = Some 0 /\
    vm w2 = vm w /\ fs w2 = fs w /\
    ReadAll p w2 = ReadAll p w1 /\
    Close p w2 = None.
Proof.
  intros Hc Hr. rewrite (Get_present s id w c Hc). intros [= <- <-].
  unfold Close. cbn. rewrite lookup_insert_eq. cbn. rewrite Hr. cbn.
  eexists. split; [reflexivity|]. cbn. rewrite !lookup_insert_eq. cbn.
  repeat split; auto.
Qed.

(** ** Start-up *)

(** What [Recover] does to the pending deletions: nothing when it leaves
    the store alone, one call of the scheduler when it registers. *)
Lemma Recover_timers_cases (lifeTime startTime : Z)
    (idFromPath : string -> result ID)
    (s s' : MmapStore) (path : string) (fileInfo : FileInfo)
    (err e : option error) (env : RecoverEnv) (w w' : World) :
  Recover lifeTime startTime idFromPath s path fileInfo err env w = (e, s', w') ->
  (s' = s /\ timers w' = timers w) \/
  (exists id region,
     e = None /\ idFromPath path = Ok id /\
     s' = mkStore (<[id := mkCache 0 (ModTime fileInfo) path region
                             (Size fileInfo)]> (cache s))
                  (dir s) (makeSpaceFor (stats s) (Size fileInfo)) /\
     timers w' =
       if lifeTime =? 0 then timers w
       else (id, Sub (ModTime fileInfo + lifeTime) startTime) :: timers w).
Proof.
  unfold Recover.
  destruct (bool_decide (err <> None) || IsDir fileInfo);
    [intros [= _ <- <-]; now left|].
  destruct (idFromPath path) as [id|e0]; [|intros [= _ <- <-]; now left].
  cbv zeta.
  destruct ((0 <? lifeTime) && _).
  { destruct (OS.Remove _ _ _) as [e1 w1] eqn:Hrm. intros [= _ <- <-]. left.
    split; [reflexivity|].
    pose proof (Remove_keeps_rest path (rec_remove_fault env) w) as (_ & _ & Ht).
    now rewrite Hrm in Ht. }
  destruct (Size fileInfo =? 0).
  { destruct (OS.Remove _ _ _) as [e1 w1] eqn:Hrm. intros [= _ <- <-]. left.
    split; [reflexivity|].
    pose proof (Remove_keeps_rest path (rec_remove_fault env) w) as (_ & _ & Ht).
    now rewrite Hrm in Ht. }
  destruct (hasSpaceFor _ _); [intros [= _ <- <-]; now left|].
  unfold getMmap, OS.Mmap.
  destruct (Size fileInfo <=? 0); [intros [= _ <- <-]; now left|].
  destruct (OS.Open _ _ _); [|intros [= _ <- <-]; now left].
  destruct (rec_mmap_fault env); [intros [= _ <- <-]; now left|].
  intros [= <- <- <-]. right. eexists _, _.
  split; [reflexivity|]. split; [reflexivity|]. split; [reflexivity|].
  unfold setupPasteDeletion. now destruct (lifeTime =? 0).
Qed.

(** X6: what [Recover] removes and what it schedules for removal.  The
    only change it can make to the file system is to remove the file it
    was called for, and it does that only when the file is expired
    (lifetime positive and [modTime + lifeTime <= startTime]) or empty:
    when the lifetime is not positive, [Recover] itself removes no file
    that is not empty.  The only deletion it can schedule is that of the
    identifier of its path, with the delay
    [modTime + lifeTime - startTime], and only when the lifetime is not
    0: when the lifetime is 0 nothing is scheduled.  (When the lifetime is
    negative the deletion of a file it registers is scheduled, with a
    delay that need not be positive.) *)
Theorem Recover_removes_only_expired_or_empty
    (lifeTime startTime : Z) (idFromPath : string -> result ID)
    (s s' : MmapStore) (path : string) (fileInfo : FileInfo)
    (err e : option error) (env : RecoverEnv) (w w' : World) :
  Recover lifeTime startTime idFromPath s path fileInfo err env w = (e, s', w') ->
  (forall name, name <> path -> fs w' !! name = fs w !! name) /\
  (fs w' !! path = fs w !! path \/
   (fs w' !! path = None /\
    ((0 < lifeTime /\ ModTime fileInfo + lifeTime <= startTime) \/
     Size fileInfo = 0))) /\
  (lifeTime <= 0 -> Size fileInfo <> 0 -> fs w' = fs w) /\
  (timers w' = timers w \/
   exists id,
     idFromPath path = Ok id /\ lifeTime <> 0 /\
     timers w' = (id, Sub (ModTime fileInfo + lifeTime) startTime) :: timers w) /\
  (lifeTime = 0 -> timers w' = timers w).
Proof.
  intros H.
  assert (Htimers :
            timers w' = timers w \/
            exists id,
              idFromPath path = Ok id /\ lifeTime <> 0 /\
              timers w' = (id, Sub (ModTime fileInfo + lifeTime) startTime)
                            :: timers w).
  { destruct (Recover_timers_cases _ _ _ _ _ _ _ _ _ _ _ _ H)
      as [[_ Ht] | (id & region & _ & Hid & _ & Ht)]; [now left|].
    destruct (Z.eqb_spec lifeTime 0) as [Hz|Hnz]; [now left|].
    right. exists id. auto. }
  assert (Hoff : lifeTime = 0 -> timers w' = timers w).
  { intros Hz. destruct Htimers as [Ht | (id & _ & Hnz & _)];
      [exact Ht | contradiction]. }
  apply Recover_world_cases in H
    as [(_ & _ & _ & _ & _ & [Hfs | (Hfs & _ & _ & _ & Hwhy)])
       | (id & data & _ & _ & _ & _ & _ & _ & _ & Hfs & _)];
    rewrite Hfs.
  - repeat split; auto.
  - split; [intros name Hne; now apply lookup_delete_ne|]. split; [|split].
    + right. split; [apply lookup_delete_eq|].
      destruct Hwhy as [[Hpos Hle] | Hz]; [left; split; lia | now right].
    + intros Hneg Hnz. destruct Hwhy as [[Hpos _] | Hz]; [lia | contradiction].
    + split; assumption.
  - repeat split; auto.
Qed.

Section StartupFacts.

Variable lifeTime : Z.
Variable startTime : Z.
Variable idFromPath : string -> result ID.

Local Abbreviation walk := (setupSubdirs lifeTime startTime idFromPath).
Local Abbreviation scheduled := (scheduled lifeTime startTime).

Lemma Recover_preserves_scheduled (s s' : MmapStore) (path : string)
    (fileInfo : FileInfo) (err e : option error) (env : RecoverEnv)
    (w w' : World) :
  lifeTime <> 0 ->
  scheduled s w ->
  Recover lifeTime startTime idFromPath s path fileInfo err env w = (e, s', w') ->
  scheduled s' w'.
Proof.
  intros Hon Hs HR.
  apply Recover_timers_cases in HR
    as [(-> & Ht) | (id & region & _ & _ & -> & Ht)].
  - intros j c Hc. rewrite Ht. now apply Hs.
  - apply Z.eqb_neq in Hon. rewrite Hon in Ht.
    intros j c. cbn [cache]. rewrite lookup_insert, Ht. case_decide.
    + intros [= <-]. cbn. subst j. apply list_elem_of_here.
    + intros Hc. apply list_elem_of_further. now apply Hs.
Qed.

(** The invariants hold after a walk, however it ends. *)
Lemma walk_invariants (entries : list WalkEntry) (s s' : MmapStore)
    (w w' : World) (e : option error) :
  mapped s w ->
  (lifeTime <> 0 -> scheduled s w) ->
  walk entries s w = (e, s', w') ->
  mapped s' w' /\ (lifeTime <> 0 -> scheduled s' w').
Proof.
  revert s w. induction entries as [|x entries IH]; intros s w Hm Hs.
  - intros [= _ <- <-]. auto.
  - cbn [setupSubdirs].
    destruct (Recover _ _ _ _ _ _ _ _ _) as [[e1 s1] w1] eqn:HR.
    assert (Hm1 : mapped s1 w1).
    { apply (step_preserves_mapped lifeTime startTime idFromPath (fun i => i)
               (OpRecover (we_path x) (we_info x) (we_err x) (we_env x))
               s s1 w w1 true Hm).
      cbn [step]. now rewrite HR. }
    assert (Hs1 : lifeTime <> 0 -> scheduled s1 w1).
    { intros Hon. apply (Recover_preserves_scheduled _ _ _ _ _ _ _ _ _ Hon (Hs Hon) HR). }
    destruct e1 as [err1|].
    + intros [= _ <- <-]. auto.
    + now apply IH.
Qed.

(** A walk whose entries carry the [FileInfo] of their files keeps the
    regions covering the slices. *)
Lemma walk_preserves_covered (entries : list WalkEntry) (s s' : MmapStore)
    (w w' : World) (e : option error) :
  mapped s w ->
  covered s w ->
  walked lifeTime startTime idFromPath entries s w ->
  walk entries s w = (e, s', w') ->
  covered s' w'.
Proof.
  revert s w. induction entries as [|x entries IH]; intros s w Hm Hcov Hw.
  - now intros [= _ <- <-].
  - cbn [setupSubdirs]. cbn [walked] in Hw. destruct Hw as [Hinfo Hrest].
    destruct (Recover _ _ _ _ _ _ _ _ _) as [[e1 s1] w1] eqn:HR.
    assert (Hm1 : mapped s1 w1).
    { apply (step_preserves_mapped lifeTime startTime idFromPath (fun i => i)
               (OpRecover (we_path x) (we_info x) (we_err x) (we_env x))
               s s1 w w1 true Hm).
      cbn [step]. now rewrite HR. }
    pose proof (Recover_preserves_covered _ _ _ _ _ _ _ _ _ _ _ _
                  Hm Hcov Hinfo HR) as Hcov1.
    destruct e1 as [err1|].
    + now intros [= _ <- <-].
    + now apply IH.
Qed.

(** Every entry a walk leaves in the table comes from a walked entry. *)
Lemma walk_recovers (entries seen : list WalkEntry) (s s' : MmapStore)
    (w w' : World) (e : option error) :
  recovered idFromPath seen s ->
  walk entries s w = (e, s', w') ->
  recovered idFromPath (seen ++ entries) s'.
Proof.
  revert seen s w. induction entries as [|x entries IH]; intros seen s w Hrec.
  - intros [= _ <- <-]. now rewrite app_nil_r.
  - cbn [setupSubdirs].
    destruct (Recover _ _ _ _ _ _ _ _ _) as [[e1 s1] w1] eqn:HR.
    assert (Hrec1 : recovered idFromPath (seen ++ [x]) s1).
    { apply Recover_timers_cases in HR
        as [(-> & _) | (id & region & _ & Hid & -> & _)].
      - intros j c Hc. destruct (Hrec j c Hc) as (y & Hy & Hrest).
        exists y. split; [|exact Hrest]. apply elem_of_app. now left.
      - intros j c. cbn [cache]. rewrite lookup_insert. case_decide.
        + intros [= <-]. subst j. exists x. cbn.
          split; [apply elem_of_app; right; apply list_elem_of_here|]. auto.
        + intros Hc. destruct (Hrec j c Hc) as (y & Hy & Hrest).
          exists y. split; [|exact Hrest]. apply elem_of_app. now left. }
    replace (seen ++ x :: entries) with ((seen ++ [x]) ++ entries)
      by (now rewrite <- app_assoc).
    destruct e1 as [err1|].
    + intros [= _ <- <-]. intros j c Hc.
      destruct (Hrec1 j c Hc) as (y & Hy & Hrest).
      exists y. split; [|exact Hrest]. apply elem_of_app. now left.
    + now apply IH.
Qed.

End StartupFacts.

Lemma scheduled_empty (lifeTime startTime : Z) (d : string) (st : Stats)
    (w : World) :
  scheduled lifeTime startTime (mkStore ∅ d st) w.
Proof. intros id c H. cbn in H. now rewrite lookup_empty in H. Qed.

(** X12: in a store that [NewMmapStore] returns after a walk whose
    entries carry the [FileInfo] of their files, every paste comes from a
    walked entry: it has that entry's path and the modification time and
    size of that entry's [FileInfo], and with the lifetime enabled its
    deletion is pending with the delay
    [ModTime + lifeTime - startTime] of that [FileInfo].  It is mapped and
    readable: the full read does not fault and returns as many bytes as
    that size.  [Delete] on it never waits. *)
Theorem NewMmapStore_recovers_readable_scheduled_pastes
    (lifeTime startTime : Z) (idFromPath : string -> result ID)
    (d : string) (entries : list WalkEntry) (w w' : World) (s : MmapStore)
    (id : ID) (c : mmapCache) :
  NewMmapStore lifeTime startTime idFromPath d entries w = (Ok s, w') ->
  walked lifeTime startTime idFromPath entries (mkStore ∅ d (mkStats 0 0 0 0)) w ->
  cache s !! id = Some c ->
  (exists x,
     x ∈ entries /\ idFromPath (we_path x) = Ok id /\
     path c = we_path x /\
     modTime c = ModTime (we_info x) /\
     size c = Size (we_info x) /\
     (lifeTime <> 0 ->
        (id, Sub (ModTime (we_info x) + lifeTime) startTime) ∈ timers w') /\
     exists p w'' bytes,
       Get s id w' = (Ok p, w'') /\ ReadAll p w'' = Some bytes /\
       Z.of_nat (length bytes) = Size (we_info x) /\
       PasteModTime p w'' = Some (ModTime (we_info x)) /\
       PasteSize p w'' = Some (Size (we_info x))) /\
  (forall env, exists err s1 w1, Delete s id env w' = Returns err s1 w1).
Proof.
  unfold NewMmapStore. cbv zeta.
  destruct (setupSubdirs _ _ _ _ _ _) as [[[e|] s1] w1] eqn:HW; [discriminate|].
  intros [= <- <-] Hwalked Hc.
  destruct (walk_invariants lifeTime startTime idFromPath entries _ _ _ _ _
              (mapped_empty d (mkStats 0 0 0 0) w)
              (fun _ => scheduled_empty lifeTime startTime d (mkStats 0 0 0 0) w) HW)
    as [[Hent _] Hs].
  pose proof (walk_preserves_covered lifeTime startTime idFromPath entries _ _ _ _ _
                (mapped_empty d (mkStats 0 0 0 0) w)
                (covered_empty d (mkStats 0 0 0 0) w) Hwalked HW) as Hcov.
  assert (Hrec0 : recovered idFromPath [] (mkStore ∅ d (mkStats 0 0 0 0))).
  { intros j c0 H. cbn in H. now rewrite lookup_empty in H. }
  pose proof (walk_recovers lifeTime startTime idFromPath entries [] _ _ _ _ _
                Hrec0 HW) as Hrec.
  cbn [app] in Hrec.
  destruct (Hent id c Hc) as (Hr & _).
  destruct (Hcov id c Hc) as (Hsz & data & Hdata & Hlen).
  destruct (Hrec id c Hc) as (x & Hx & Hid & Hp & Hmt & Hsize).
  split.
  - exists x. repeat (split; [assumption|]). split.
    + intros Hon. rewrite <- Hmt. now apply (Hs Hon).
    + destruct (Get_reads_region _ _ _ _ _ Hc Hdata Hlen)
        as (p & w'' & Hg & Hrd & Ht & Hsz' & _).
      exists p, w'', (take (slen (mmap c)) data).
      rewrite <- Hmt, <- Hsize. repeat split; auto.
      rewrite length_take. lia.
  - intros env.
    destruct (Delete_cases s1 id env w1)
      as [[Hnone _] | (c' & st' & w2 & Hc' & [[r ->] | HB] & _)];
      [congruence | eauto |].
    exfalso. unfold Delete in HB. rewrite Hc, Hr in HB. cbn in HB.
    destruct (OS.Munmap _ _ _) as [[?|] ?]; [discriminate|].
    destruct (OS.Remove _ _ _) as [[?|] ?]; discriminate.
Qed.

(** * Further properties of the request layer *)

(** X13: [getContentFromForm] never returns empty content: what it
    returns is the form value when that is not empty, and otherwise the
    content of the uploaded file, which then is not empty. *)
Theorem getContentFromForm_never_empty
    (r : Handler.Request) (c : list Byte.byte) :
  Handler.getContentFromForm r = Ok c ->
  c <> [] /\
  ((Handler.FormValue r <> [] /\ c = Handler.FormValue r) \/
   (Handler.FormValue r = [] /\ Handler.FormFile r = Some (Ok c))).
Proof.
  unfold Handler.getContentFromForm.
  destruct (Handler.FormValue r) as [|b l] eqn:Hv.
  - destruct (Handler.FormFile r) as [[[|b l]|e]|]; try discriminate.
    intros [= <-]. split; [discriminate|]. now right.
  - intros [= <-]. split; [discriminate|]. left. split; [discriminate | reflexivity].
Qed.

Section RequestFacts.

Context {St : Type} `{Handler.Store St}.
Variable siteURL : string.
Variable lifeTime : Z.
Variable errorText : error -> string.

Local Abbreviation handlePost := (Handler.handlePost siteURL lifeTime errorText).

Lemma handlePost_without_content (x : Handler.State)
    (w : Handler.ResponseWriter) (r : Handler.Request) (e : error) :
  Handler.getContentFromForm r = Err e ->
  handlePost x w r = (x, Handler.http_Error w (errorText e) Handler.StatusBadRequest).
Proof. intros Hc. unfold Handler.handlePost. now rewrite Hc. Qed.

Lemma handlePost_reserved (x : Handler.State)
    (w : Handler.ResponseWriter) (r : Handler.Request)
    (content : list Byte.byte) :
  Handler.getContentFromForm r = Ok content ->
  hasSpaceFor (Handler.st_stats x) (Z.of_nat (length content)) = None ->
  let size := Z.of_nat (length content) in
  let stats := makeSpaceFor (Handler.st_stats x) size in
  handlePost x w r =
    match Handler.sPut content (Handler.st_store x) with
    | (id, Some perr, store) =>
        (Handler.mkState store (Handler.FreeSpace stats size) (Handler.st_timers x),
         Handler.http_Error w (errorText perr) Handler.StatusInternalServerError)
    | (id, None, store) =>
        (Handler.SetupPasteDeletion lifeTime
           (Handler.mkState store stats (Handler.st_timers x)) id size lifeTime,
         Handler.Write (siteURL ++ "/" ++ id ++ Handler.newline) w)
    end.
Proof.
  intros Hc Hq. cbv zeta. unfold Handler.handlePost, Handler.MakeSpaceFor.
  rewrite Hc, Hq.
  now destruct (Handler.sPut content (Handler.st_store x)) as [[id [perr|]] store].
Qed.

End RequestFacts.

(** X14: a POST that carries no paste (an empty form value and no file,
    an unreadable file or an empty file) is answered with a bad-request
    status and the text of the error; the store, the quota counters and
    the timers are left as they were: neither the reservation nor [Put]
    is reached. *)
Theorem handlePost_without_paste_changes_nothing
    {St : Type} `{Handler.Store St}
    (siteURL : string) (lifeTime : Z) (errorText : error -> string)
    (x : Handler.State) (r : Handler.Request) :
  Handler.FormValue r = [] ->
  (Handler.FormFile r = None \/
   (exists e, Handler.FormFile r = Some (Err e)) \/
   Handler.FormFile r = Some (Ok [])) ->
  Handler.handlePost siteURL lifeTime errorText x Handler.newResponse r =
    (x, Handler.mkResponse (Some Handler.StatusBadRequest)
          (errorText (ErrOther "no paste provided") ++ Handler.newline)).
Proof.
  intros Hv Hf.
  rewrite (handlePost_without_content siteURL lifeTime errorText x
             Handler.newResponse r (ErrOther "no paste provided")).
  - reflexivity.
  - unfold Handler.getContentFromForm. rewrite Hv.
    destruct Hf as [-> | [[e ->] | ->]]; reflexivity.
Qed.

(** X15: a POST with a paste, room in the quota and a [Put] that
    succeeds, the lifetime being positive: the counters are charged with
    one paste of the content's size, the deletion is pending with the full
    lifetime, the store is the one [Put] returned, and the response is
    [200] with the paste's URL on a line. *)
Theorem handlePost_stores_and_schedules
    {St : Type} `{Handler.Store St}
    (siteURL : string) (lifeTime : Z) (errorText : error -> string)
    (x : Handler.State) (r : Handler.Request)
    (content : list Byte.byte) (id : ID) (store : St) :
  Handler.getContentFromForm r = Ok content ->
  hasSpaceFor (Handler.st_stats x) (Z.of_nat (length content)) = None ->
  Handler.sPut content (Handler.st_store x) = (id, None, store) ->
  0 < lifeTime ->
  let size := Z.of_nat (length content) in
  Handler.handlePost siteURL lifeTime errorText x Handler.newResponse r =
    (Handler.mkState store (makeSpaceFor (Handler.st_stats x) size)
                     ((id, size, lifeTime) :: Handler.st_timers x),
     Handler.mkResponse (Some 200) (siteURL ++ "/" ++ id ++ Handler.newline)).
Proof.
  intros Hc Hq HP Hpos size.
  rewrite (handlePost_reserved siteURL lifeTime errorText x Handler.newResponse
             r content Hc Hq), HP.
  unfold Handler.SetupPasteDeletion.
  destruct (Z.eqb_spec lifeTime 0); [lia|].
  destruct (Z.leb_spec lifeTime 0); [lia|]. reflexivity.
Qed.

(** X16: a POST with a paste and room in the quota whose [Put] fails:
    the reservation is undone, so the counters are the ones from before
    the request; no deletion is scheduled, and the response is the
    internal-error status with the text of [Put]'s error. *)
Theorem handlePost_failed_Put_after_reservation_rolls_back
    {St : Type} `{Handler.Store St}
    (siteURL : string) (lifeTime : Z) (errorText : error -> string)
    (x : Handler.State) (r : Handler.Request)
    (content : list Byte.byte) (id : ID) (perr : error) (store : St) :
  Handler.getContentFromForm r = Ok content ->
  hasSpaceFor (Handler.st_stats x) (Z.of_nat (length content)) = None ->
  Handler.sPut content (Handler.st_store x) = (id, Some perr, store) ->
  Int64.in64 (number (Handler.st_stats x)) ->
  Int64.in64 (storage (Handler.st_stats x)) ->
  Handler.handlePost siteURL lifeTime errorText x Handler.newResponse r =
    (Handler.mkState store (Handler.st_stats x) (Handler.st_timers x),
     Handler.mkResponse (Some Handler.StatusInternalServerError)
                        (errorText perr ++ Handler.newline)).
Proof.
  intros Hc Hq HP Hn Hs.
  rewrite (handlePost_reserved siteURL lifeTime errorText x Handler.newResponse
             r content Hc Hq), HP.
  now rewrite FreeSpace_MakeSpaceFor.
Qed.

Section GetFacts.

Variable errorText : error -> string.
Variable templates : string -> bool.
Variable ExecuteTemplate : Handler.ResponseWriter -> string -> Handler.ResponseWriter.
Variable IDFromString : string -> result ID.
Variable ServeContent :
  Handler.ResponseWriter -> Http.Request -> Z -> MmapPaste -> MmapStore * World ->
  Handler.ResponseWriter.

Local Abbreviation handleGet :=
  (Http.handleGet errorText templates ExecuteTemplate IDFromString ServeContent).

(** X17: a GET for an id that the mapped store does not hold is answered
    with the not-found status and the text of [ErrPasteNotFound]; the
    store and its world are untouched. *)
Theorem handleGet_missing_paste_is_not_found
    (s : MmapStore) (w : World) (resp : Handler.ResponseWriter)
    (r : Http.Request) (a : Ascii.ascii) (rest : string) (id : ID) :
  templates (Http.URLPath r) = false ->
  Http.URLPath r = String a rest ->
  IDFromString rest = Ok id ->
  cache s !! id = None ->
  handleGet (s, w) resp r =
    Some ((s, w),
          Handler.http_Error resp (errorText ErrPasteNotFound) Http.StatusNotFound).
Proof.
  intros Ht Hp Hid Hc. unfold Http.handleGet. rewrite Ht, Hp, Hid.
  cbn [Http.sGet Http.mmapReading fst snd].
  now rewrite (Get_absent s id w Hc).
Qed.

(** X18: a GET for an id that the mapped store holds is served from a
    handle with the entry's modification time, and the handle is closed
    before the handler returns: its counter is back to zero, and the
    table, the mappings and the files are as before the request. *)
Theorem handleGet_serves_and_closes_the_handle
    (s : MmapStore) (w : World) (resp : Handler.ResponseWriter)
    (r : Http.Request) (a : Ascii.ascii) (rest : string) (id : ID)
    (c : mmapCache) :
  templates (Http.URLPath r) = false ->
  Http.URLPath r = String a rest ->
  IDFromString rest = Ok id ->
  cache s !! id = Some c ->
  reading c = 0 ->
  exists p w1 w2,
    Get s id w = (Ok p, w1) /\
    handleGet (s, w) resp r =
      Some ((s, w2), ServeContent resp r (modTime c) p (s, w1)) /\
    reading <$> heap w2 !! pcache p = Some 0 /\
    vm w2 = vm w /\ fs w2 = fs w /\ timers w2 = timers w.
Proof.
  intros Ht Hp Hid Hc Hr. eexists _, _, _.
  split; [exact (Get_present s id w c Hc)|].
  unfold Http.handleGet. rewrite Ht, Hp, Hid.
  cbn [Http.sGet Http.pModTime Http.pClose Http.mmapReading fst snd].
  rewrite (Get_present s id w c Hc).
  unfold PasteModTime, Close. cbn. rewrite !lookup_insert_eq. cbn.
  rewrite Hr. cbn. split; [reflexivity|].
  cbn [heap set_heap vm fs timers]. rewrite lookup_insert_eq. now cbn.
Qed.

(** X19: a GET whose path is neither a template nor a slash followed by
    an identifier is refused without looking at the store: an empty path
    makes the handler panic on the slice, and a path whose tail is no
    identifier gets the bad-request status with ["invalid paste id"]. *)
Theorem handleGet_path_without_id
    (x : MmapStore * World) (resp : Handler.ResponseWriter) (r : Http.Request) :
  templates (Http.URLPath r) = false ->
  (forall a rest id, Http.URLPath r = String a rest -> IDFromString rest <> Ok id) ->
  handleGet x resp r =
    match Http.URLPath r with
    | EmptyString => None
    | String _ _ =>
        Some (x, Handler.http_Error resp "invalid paste id" Handler.StatusBadRequest)
    end.
Proof.
  intros Ht Hno. unfold Http.handleGet. rewrite Ht.
  destruct (Http.URLPath r) as [|a rest] eqn:Hp; [reflexivity|].
  destruct (IDFromString rest) as [id|e] eqn:Hid; [|reflexivity].
  exfalso. now apply (Hno a rest id).
Qed.

End GetFacts.

(** X20: only a POST can change the quota counters and the pending
    deletions: for every other method the handler leaves both as they
    are, and a method that is neither GET nor POST leaves everything as it
    is and is answered with the bad-request status and
    ["unsupported action"]. *)
Theorem newHandler_only_POST_changes_quota
    {St P : Type} `{Handler.Store St} `{Http.Reading St P}
    (siteURL : string) (lifeTime : Z) (errorText : error -> string)
    (templates : string -> bool)
    (ExecuteTemplate : Handler.ResponseWriter -> string -> Handler.ResponseWriter)
    (IDFromString : string -> result ID)
    (ServeContent : Handler.ResponseWriter -> Http.Request -> Z -> P -> St ->
                    Handler.ResponseWriter)
    (x x' : Handler.State) (w w' : Handler.ResponseWriter) (r : Http.Request) :
  Http.Method r <> "POST"%string ->
  Http.newHandler siteURL lifeTime errorText templates ExecuteTemplate
                  IDFromString ServeContent x w r = Some (x', w') ->
  Handler.st_stats x' = Handler.st_stats x /\
  Handler.st_timers x' = Handler.st_timers x /\
  (Http.Method r <> "GET"%string ->
   x' = x /\
   w' = Handler.http_Error w Http.unknownAction Handler.StatusBadRequest).
Proof.
  intros Hpost. unfold Http.newHandler.
  destruct (decide (Http.Method r = "GET"%string)) as [Hget|Hget].
  - match goal with
    | |- match ?t with _ => _ end = _ -> _ => destruct t as [[store w1]|]
    end; [|discriminate].
    intros [= <- <-]. cbn. split; [reflexivity|]. split; [reflexivity|].
    intros Hn. contradiction.
  - destruct (decide (Http.Method r = "POST"%string)); [contradiction|].
    intros [= <- <-]. auto.
Qed.

(** X21: [setupStore] fails exactly for a storage type it does not know
    and for more arguments than the type has parameters (none for
    ["mem"], one for ["fs"] and ["fs-mmap"]); otherwise it calls the
    type's constructor, with the directory argument when one is given and
    with ["pastes"] when none is. *)
Theorem setupStore_chooses_the_constructor
    (R : Type) (NewFileStore NewMmapStore : Stats -> Z -> string -> R)
    (NewMemStore nilStore : R) (stats : Stats) (lifeTime : Z)
    (storageType : string) (args : list string) :
  let result := Http.setupStore R NewFileStore NewMmapStore NewMemStore nilStore
                                stats lifeTime storageType args in
  (storageType <> "fs"%string -> storageType <> "fs-mmap"%string ->
   storageType <> "mem"%string ->
   result = inl ("unknown storage type '" ++ storageType ++ "'")%string) /\
  (storageType = "mem"%string ->
   result = match args with
            | [] => inr NewMemStore
            | _ => inl "too many arguments given for mem"%string
            end) /\
  (storageType = "fs"%string ->
   result = match args with
            | [] => inr (NewFileStore stats lifeTime "pastes"%string)
            | [d] => inr (NewFileStore stats lifeTime d)
            | _ => inl "too many arguments given for fs"%string
            end) /\
  (storageType = "fs-mmap"%string ->
   result = match args with
            | [] => inr (NewMmapStore stats lifeTime "pastes"%string)
            | [d] => inr (NewMmapStore stats lifeTime d)
            | _ => inl "too many arguments given for fs-mmap"%string
            end).
Proof.
  intros result. subst result. unfold Http.setupStore, Http.storeParams.
  split; [|split; [|split]].
  - intros H1 H2 H3. now rewrite !decide_False by assumption.
  - intros ->. destruct args as [|a args]; reflexivity.
  - intros ->. destruct args as [|a [|b args]]; reflexivity.
  - intros ->. destruct args as [|a [|b args]]; reflexivity.
Qed.

(** ** A recovered paste and its deletion *)

Lemma Munmap_live (b : slice) (w : World) (data : list Byte.byte) :
  slen b <> 0%nat ->
  vm w !! addr b = Some data ->
  OS.Munmap b None w = (None, set_vm w (delete (addr b) (vm w)) (brk w)).
Proof.
  intros Hlen Hd. unfold OS.Munmap.
  destruct (slen b); [contradiction|]. now rewrite Hd.
Qed.

(** X22: a file that [Recover] registered and that is deleted again (as
    its timer does) leaves no trace: the table, the quota counters and
    the mappings are the ones from before the [Recover], and the file is
    gone from the disk (the id having had no entry, the fresh address
    being unused, and the counters being machine integers). *)
Theorem Recover_then_Delete_leaves_no_trace
    (lifeTime startTime : Z) (idFromPath : string -> result ID)
    (s : MmapStore) (name : string) (fileInfo : FileInfo) (env : RecoverEnv)
    (w : World) (id : ID) (f : File) :
  IsDir fileInfo = false ->
  idFromPath name = Ok id ->
  ~ (0 < lifeTime /\ ModTime fileInfo + lifeTime - startTime <= 0) ->
  Size fileInfo <> 0 ->
  hasSpaceFor (stats s) (Size fileInfo) = None ->
  fs w !! name = Some f ->
  Size fileInfo = Z.of_nat (length (f_content f)) ->
  rec_open_fault env = None ->
  rec_mmap_fault env = None ->
  cache s !! id = None ->
  vm w !! brk w = None ->
  Int64.in64 (number (stats s)) ->
  Int64.in64 (storage (stats s)) ->
  exists s1 w1 s2 w2,
    Recover lifeTime startTime idFromPath s name fileInfo None env w = (None, s1, w1) /\
    Delete s1 id noDeleteFault w1 = Returns None s2 w2 /\
    cache s2 = cache s /\ stats s2 = stats s /\
    vm w2 = vm w /\ fs w2 = delete name (fs w).
Proof.
  intros Hd Hid Hexp Hsz Hq Hf Hlen Ho Hm Hfree Hvm Hn Hs.
  eexists _, _, _, _. split.
  { exact (Recover_register lifeTime startTime idFromPath s name fileInfo env w
             id f Hd Hid Hexp Hsz Hq Hf Hlen Ho Hm). }
  destruct (setupPasteDeletion_keeps lifeTime
              (set_vm w (<[brk w:=f_content f]> (vm w)) (N.succ (brk w))) id
              (Sub (ModTime fileInfo + lifeTime) startTime))
    as (Hfs' & Hvm' & _ & _).
  set (w1 := setupPasteDeletion lifeTime _ id _) in *.
  assert (Hpos : length (f_content f) <> 0%nat).
  { intros Hz. rewrite Hz in Hlen. cbn in Hlen. contradiction. }
  unfold Delete. cbn [cache]. rewrite lookup_insert_eq.
  cbn [reading Z.ltb Z.compare mmap path size stats dir].
  cbn [noDeleteFault munmap_fault remove_fault].
  rewrite (Munmap_live _ w1 (f_content f)); cbn [slen addr]; auto;
    [|rewrite Hvm'; cbn [vm set_vm]; apply lookup_insert_eq].
  rewrite Hvm'. cbn [vm set_vm].
  unfold OS.Remove. cbn [fs set_vm]. rewrite Hfs'. cbn [fs set_vm]. rewrite Hf.
  split; [reflexivity|]. cbn.
  rewrite !delete_insert_id by assumption.
  repeat split; auto.
  destruct (stats s) as [num maxN sto maxS]. unfold freeSpace, makeSpaceFor.
  cbn in *. now rewrite !wrap64_add_sub.
Qed.

(** ** The further properties at the worked examples *)

Section FurtherWitnesses.

Import Sample Examples MoreExamples.

Local Ltac by_computation := vm_compute; first [reflexivity | congruence | tauto].

(** Settles [truthful] and [walked] on closed operations: each file met
    is compared with the [FileInfo] handed over. *)
Local Ltac by_inspection :=
  vm_compute;
  repeat match goal with
         | |- True => exact I
         | |- forall f, Some _ = Some f -> _ => intros ? [= <-]; split; reflexivity
         | |- forall f, None = Some f -> _ => intros ? [=]
         | |- _ /\ _ => split
         end.

(** A mapping that is longer than its file: of 5 bytes over a file of 3,
    the 3 bytes and 2 zeros are read; of 5000 bytes, the file's page of
    4096 bytes is read and an access beyond it faults. *)
Example Mmap_longer_than_the_file :
  let f := mkFile foo 0 in
  let short := OS.Mmap (Some f) 5 None emptyWorld in
  let long := OS.Mmap (Some f) 5000 None emptyWorld in
  fst short = Ok (mkSlice 1 5) /\
  OS.load (mkSlice 1 5) 0 5 (snd short) = Some (foo ++ [Byte.x00; Byte.x00]) /\
  fst long = Ok (mkSlice 1 5000) /\
  OS.load (mkSlice 1 5000) 0 4096 (snd long) = Some (OS.backing 4096 f) /\
  OS.load (mkSlice 1 5000) 4096 1 (snd long) = None /\
  OS.load (mkSlice 1 5000) 0 5000 (snd long) = None.
Proof. vm_compute. repeat split. Qed.

Lemma Put_failure_witness :
  exists w',
    Put pathFromID (store 0 0) foo noMapping emptyWorld =
      (id1, Some noMemory, store 0 0, w') /\
    vm w' = vm emptyWorld /\
    fs w' = <[pathFromID id1 := mkFile foo startTime]> (fs emptyWorld).
Proof.
  eexists.
  assert (HP : Put pathFromID (store 0 0) foo noMapping emptyWorld =
               (id1, Some noMemory, store 0 0,
                set_fs emptyWorld
                  (<[pathFromID id1 := mkFile foo startTime]> (fs emptyWorld))))
    by by_computation.
  split; [exact HP|].
  destruct (Put_failure_registers_nothing pathFromID _ _ _ _ _ _ _ _ HP)
    as (_ & Hvm & _).
  split; [exact Hvm | reflexivity].
Defined.

Lemma Put_empty_content_witness :
  hasSpaceFor (stats (store 0 0)) 0 = None /\
  Put pathFromID (store 0 0) [] (noPutFault [id1] startTime) emptyWorld =
    (id1, Some EINVAL, store 0 0,
     set_fs emptyWorld (<[pathFromID id1 := mkFile [] startTime]> (fs emptyWorld))).
Proof.
  assert (Hq : hasSpaceFor (stats (store 0 0)) 0 = None) by by_computation.
  split; [exact Hq|].
  apply (Put_empty_content_fails_after_writing pathFromID (store 0 0)
           (noPutFault [id1] startTime) emptyWorld id1 Hq); by_computation.
Defined.

Lemma Put_keeps_the_other_pastes_witness :
  exists c,
    Put pathFromID s1 foo secondPut w1 = (id2, None, s2, w2) /\
    cache s1 !! id1 = Some c /\ cache s2 !! id1 = Some c /\
    cache s1 !! id2 = None.
Proof.
  assert (HP : Put pathFromID s1 foo secondPut w1 = (id2, None, s2, w2))
    by by_computation.
  destruct (Put_keeps_the_other_pastes pathFromID _ _ _ _ _ _ _ _ HP) as [Hkeep Hnew].
  exists (mkCache 0 startTime (pathFromID id1) (mkSlice 1 3) 3).
  assert (Hc : cache s1 !! id1 =
               Some (mkCache 0 startTime (pathFromID id1) (mkSlice 1 3) 3))
    by by_computation.
  split; [exact HP|]. split; [exact Hc|]. split; [exact (Hkeep _ _ Hc)|].
  exact (proj1 (Hnew eq_refl)).
Defined.

Lemma Delete_success_witness :
  exists c s' w',
    cache s1 !! id1 = Some c /\
    Delete s1 id1 noDeleteFault w1 = Returns None s' w' /\
    cache s' = delete id1 (cache s1) /\
    vm w' = delete (addr (mmap c)) (vm w1) /\
    fs w' = delete (path c) (fs w1).
Proof.
  set (c := mkCache 0 startTime (pathFromID id1) (mkSlice 1 3) 3).
  assert (Hc : cache s1 !! id1 = Some c) by by_computation.
  destruct (Delete s1 id1 noDeleteFault w1) as [r s' w'|s' w'] eqn:HD;
    [|exfalso; revert HD; by_computation].
  assert (Hr : r = None).
  { assert (H : match Delete s1 id1 noDeleteFault w1 with
                | Returns r _ _ => r | Blocks _ _ => None end = None)
      by by_computation.
    now rewrite HD in H. }
  subst r.
  destruct (Delete_success_effects _ _ _ _ _ _ _ Hc HD) as (H1 & _ & _ & H2 & H3 & _).
  exists c, s', w'. auto.
Defined.

Lemma Put_then_Delete_witness :
  exists s'' w'',
    Delete s1 id1 noDeleteFault w1 = Returns None s'' w'' /\
    cache s'' = cache (store 0 0) /\ stats s'' = stats (store 0 0) /\
    fs w'' = fs emptyWorld /\ vm w'' = vm emptyWorld.
Proof.
  destruct (Put_then_Delete_restores pathFromID (store 0 0) s1 foo
              (noPutFault [id1] startTime) emptyWorld w1 id1)
    as (s'' & w'' & HD & Hc & Hs & _ & Hfs & Hvm).
  - unfold Int64.in64, Int64.min, Int64.max. cbn. lia.
  - unfold Int64.in64, Int64.min, Int64.max. cbn. lia.
  - by_computation.
  - by_computation.
  - by_computation.
  - exists s'', w''. auto.
Defined.

Lemma Recover_removal_witness :
  exists e w',
    Recover lifeTime startTime idFromPath (store 0 0) (pathFromID id2) stale
            None noRecoverFault wStale = (e, store 0 0, w') /\
    (fs w' !! pathFromID id2 = fs wStale !! pathFromID id2 \/
     (fs w' !! pathFromID id2 = None /\
      ((0 < lifeTime /\ ModTime stale + lifeTime <= startTime) \/ Size stale = 0))).
Proof.
  eexists _, _.
  assert (HR : Recover lifeTime startTime idFromPath (store 0 0) (pathFromID id2)
                 stale None noRecoverFault wStale =
               (None, store 0 0,
                set_fs wStale (delete (pathFromID id2) (fs wStale))))
    by by_computation.
  split; [exact HR|].
  exact (proj1 (proj2 (Recover_removes_only_expired_or_empty _ _ _ _ _ _ _ _ _ _ _ _ HR))).
Defined.

Lemma readable_entry_witness :
  truthful lifeTime startTime idFromPath pathFromID someOps
           (mkStore ∅ "pastes" (mkStats 0 1 0 10)) wFresh /\
  let state := run lifeTime startTime idFromPath pathFromID someOps
                   (mkStore ∅ "pastes" (mkStats 0 1 0 10)) wFresh in
  exists c p w' bytes,
    cache (fst state) !! id1 = Some c /\
    Get (fst state) id1 (snd state) = (Ok p, w') /\
    ReadAll p w' = Some bytes /\
    Z.of_nat (length bytes) = size c.
Proof.
  assert (Ht : truthful lifeTime startTime idFromPath pathFromID someOps
                 (mkStore ∅ "pastes" (mkStats 0 1 0 10)) wFresh)
    by by_inspection.
  split; [exact Ht|].
  intros state.
  destruct (cache (fst state) !! id1) as [c|] eqn:Hc;
    [|exfalso; revert Hc; by_computation].
  destruct (entries_of_reachable_states_are_readable lifeTime startTime idFromPath
              pathFromID "pastes" (mkStats 0 1 0 10) wFresh someOps id1 c Ht Hc)
    as (p & w' & bytes & Hg & Hr & Hl & _).
  exists c, p, w', bytes. auto.
Defined.

Lemma put_content_stays_witness :
  Forall (leaves idFromPath id1) laterOps /\
  let state := run lifeTime startTime idFromPath pathFromID laterOps s1 w1 in
  exists p w',
    Get (fst state) id1 (snd state) = (Ok p, w') /\ ReadAll p w' = Some foo.
Proof.
  assert (Hl : Forall (leaves idFromPath id1) laterOps).
  { repeat constructor; cbn; by_computation. }
  split; [exact Hl|].
  destruct (put_content_stays_until_deleted lifeTime startTime idFromPath
              pathFromID (store 0 0) s1 emptyWorld w1 foo
              (noPutFault [id1] startTime) id1 laterOps
              (mapped_empty _ _ _) eq_refl Hl)
    as (p & w' & Hg & Hr & _).
  exists p, w'. auto.
Defined.

End FurtherWitnesses.

Section RequestWitnesses.

Import Sample Examples MoreExamples.

Local Ltac by_computation := vm_compute; first [reflexivity | congruence | tauto].

Local Ltac by_inspection :=
  vm_compute;
  repeat match goal with
         | |- True => exact I
         | |- forall f, Some _ = Some f -> _ => intros ? [= <-]; split; reflexivity
         | |- forall f, None = Some f -> _ => intros ? [=]
         | |- _ /\ _ => split
         end.

Local Abbreviation entry1 :=
  (mkCache 0 startTime (pathFromID id1) (mkSlice 1 3) 3).

Lemma Get_twice_witness :
  exists p1 wa p2 wb,
    Get s1 id1 w1 = (Ok p1, wa) /\ Get s1 id1 wa = (Ok p2, wb) /\
    pcache p1 <> pcache p2 /\
    reading <$> heap wb !! pcache p1 = Some 1 /\
    reading <$> heap wb !! pcache p2 = Some 1.
Proof.
  assert (Hc : cache s1 !! id1 = Some entry1) by by_computation.
  eexists _, _, _, _.
  split; [exact (Get_present s1 id1 w1 _ Hc)|].
  split; [exact (Get_present s1 id1 _ _ Hc)|].
  destruct (Get_twice_counts_separately s1 id1 w1 _ _ entry1 _ _ Hc
              (Get_present s1 id1 w1 _ Hc) (Get_present s1 id1 _ _ Hc))
    as (Hne & _ & H1 & H2 & _).
  auto.
Defined.

Lemma Close_witness :
  exists p wa wb,
    Get s1 id1 w1 = (Ok p, wa) /\
    Close p wa = Some wb /\
    reading <$> heap wb !! pcache p = Some 0 /\
    ReadAll p wb = ReadAll p wa /\
    Close p wb = None.
Proof.
  assert (Hc : cache s1 !! id1 = Some entry1) by by_computation.
  destruct (Close_once_then_panic s1 id1 w1 _ entry1 _ Hc eq_refl
              (Get_present s1 id1 w1 _ Hc))
    as (wb & H1 & H2 & _ & _ & H3 & H4).
  eexists _, _, wb. split; [exact (Get_present s1 id1 w1 _ Hc)|]. auto.
Defined.

Lemma NewMmapStore_witness :
  walked lifeTime startTime idFromPath [emptyEntry; goodEntry]
         (mkStore ∅ "pastes" (mkStats 0 0 0 0)) wWalk /\
  exists s w' c,
    NewMmapStore lifeTime startTime idFromPath "pastes" [emptyEntry; goodEntry]
                 wWalk = (Ok s, w') /\
    cache s !! id2 = Some c /\
    path c = pathFromID id2 /\
    modTime c = ModTime fresh /\
    size c = Size fresh /\
    (exists p w'' bytes,
       Get s id2 w' = (Ok p, w'') /\ ReadAll p w'' = Some bytes /\
       Z.of_nat (length bytes) = Size fresh) /\
    (id2, Sub (ModTime fresh + lifeTime) startTime) ∈ timers w'.
Proof.
  assert (Hw : walked lifeTime startTime idFromPath [emptyEntry; goodEntry]
                 (mkStore ∅ "pastes" (mkStats 0 0 0 0)) wWalk)
    by by_inspection.
  split; [exact Hw|].
  destruct (NewMmapStore lifeTime startTime idFromPath "pastes"
              [emptyEntry; goodEntry] wWalk) as [[s|e] w'] eqn:HN;
    [|exfalso; revert HN; by_computation].
  destruct (cache s !! id2) as [c|] eqn:Hc.
  - destruct (NewMmapStore_recovers_readable_scheduled_pastes
                lifeTime startTime idFromPath "pastes" _ wWalk w' s id2 c HN Hw Hc)
      as ((x & Hx & Hid & Hp & Hmt & Hsz & Ht & p & w'' & bytes & Hg & Hr & Hl & _) & _).
    assert (Hgood : x = goodEntry).
    { apply elem_of_cons in Hx as [->|Hx]; [exfalso; revert Hid; by_computation|].
      apply elem_of_cons in Hx as [->|Hx]; [reflexivity|].
      now apply elem_of_nil in Hx. }
    subst x.
    exists s, w', c. split; [reflexivity|]. split; [exact Hc|].
    split; [exact Hp|]. split; [exact Hmt|]. split; [exact Hsz|].
    split; [exists p, w'', bytes; auto|]. apply Ht. discriminate.
  - exfalso.
    assert (H : match NewMmapStore lifeTime startTime idFromPath "pastes"
                        [emptyEntry; goodEntry] wWalk with
                | (Ok s, _) => is_Some (cache s !! id2)
                | _ => False
                end) by (vm_compute; eauto).
    rewrite HN, Hc in H. now destruct H.
Defined.

Lemma Recover_then_Delete_witness :
  exists sa wa sb wb,
    Recover lifeTime startTime idFromPath (store 0 0) (pathFromID id2) fresh
            None noRecoverFault wFresh = (None, sa, wa) /\
    Delete sa id2 noDeleteFault wa = Returns None sb wb /\
    cache sb = cache (store 0 0) /\ stats sb = stats (store 0 0) /\
    vm wb = vm wFresh /\ fs wb = delete (pathFromID id2) (fs wFresh).
Proof.
  apply (Recover_then_Delete_leaves_no_trace lifeTime startTime idFromPath
           (store 0 0) (pathFromID id2) fresh noRecoverFault wFresh id2
           (mkFile foo (ModTime fresh))).
  - reflexivity.
  - by_computation.
  - vm_compute. intros [_ Hle]. now apply Hle.
  - discriminate.
  - by_computation.
  - by_computation.
  - reflexivity.
  - reflexivity.
  - reflexivity.
  - by_computation.
  - by_computation.
  - unfold Int64.in64, Int64.min, Int64.max. cbn. lia.
  - unfold Int64.in64, Int64.min, Int64.max. cbn. lia.
Defined.

Lemma getContentFromForm_witness :
  Handler.getContentFromForm postFoo = Ok foo /\ foo <> [].
Proof.
  assert (Hc : Handler.getContentFromForm postFoo = Ok foo) by reflexivity.
  split; [exact Hc|].
  exact (proj1 (getContentFromForm_never_empty postFoo foo Hc)).
Defined.

Lemma handlePost_without_paste_witness :
  Handler.FormValue emptyPost = [] /\
  Handler.handlePost "http://paste.cat" lifeTime Handler.sampleError willAccept
                     Handler.newResponse emptyPost =
    (willAccept,
     Handler.mkResponse (Some 400) ("no paste provided" ++ Handler.newline)).
Proof.
  split; [reflexivity|].
  apply (handlePost_without_paste_changes_nothing "http://paste.cat" lifeTime
           Handler.sampleError willAccept emptyPost eq_refl).
  right. right. reflexivity.
Defined.

Lemma handlePost_stores_witness :
  hasSpaceFor roomyStats (Z.of_nat (length foo)) = None /\
  Handler.handlePost "http://paste.cat" lifeTime Handler.sampleError willAccept
                     Handler.newResponse postFoo =
    (Handler.mkState [] (mkStats 1 1 3 0) [(id1, 3, lifeTime)],
     Handler.mkResponse (Some 200) ("http://paste.cat/a63d03b9" ++ Handler.newline)).
Proof.
  assert (Hq : hasSpaceFor roomyStats (Z.of_nat (length foo)) = None)
    by by_computation.
  split; [exact Hq|].
  assert (HP : Handler.sPut foo (Handler.st_store willAccept) = (id1, None, []))
    by reflexivity.
  rewrite (handlePost_stores_and_schedules "http://paste.cat" lifeTime
             Handler.sampleError willAccept postFoo foo id1 [] eq_refl Hq HP);
    by_computation.
Defined.

Lemma handlePost_rollback_witness :
  hasSpaceFor roomyStats (Z.of_nat (length foo)) = None /\
  Handler.handlePost "http://paste.cat" lifeTime Handler.sampleError willFail
                     Handler.newResponse postFoo =
    (Handler.mkState [] roomyStats [],
     Handler.mkResponse (Some 500) ("system call failed" ++ Handler.newline)).
Proof.
  assert (Hq : hasSpaceFor roomyStats (Z.of_nat (length foo)) = None)
    by by_computation.
  split; [exact Hq|].
  assert (HP : Handler.sPut foo (Handler.st_store willFail) =
               (id1, Some noMemory, [])) by reflexivity.
  rewrite (handlePost_failed_Put_after_reservation_rolls_back
             "http://paste.cat" lifeTime Handler.sampleError willFail postFoo
             foo id1 noMemory [] eq_refl Hq HP).
  - reflexivity.
  - unfold Int64.in64, Int64.min, Int64.max. cbn. lia.
  - unfold Int64.in64, Int64.min, Int64.max. cbn. lia.
Defined.

Lemma handleGet_missing_witness :
  cache s1 !! id2 = None /\
  Http.handleGet Handler.sampleError frontPage render eightChars serve
                 (s1, w1) Handler.newResponse getOther =
    Some ((s1, w1),
          Handler.mkResponse (Some 404) ("paste not found" ++ Handler.newline)).
Proof.
  assert (Hc : cache s1 !! id2 = None) by by_computation.
  split; [exact Hc|].
  rewrite (handleGet_missing_paste_is_not_found Handler.sampleError frontPage
             render eightChars serve s1 w1 Handler.newResponse getOther
             _ "0badcafe" id2 eq_refl eq_refl eq_refl Hc).
  reflexivity.
Defined.

Lemma handleGet_serves_witness :
  exists p wa wb,
    Get s1 id1 w1 = (Ok p, wa) /\
    Http.handleGet Handler.sampleError frontPage render eightChars serve
                   (s1, w1) Handler.newResponse getPaste =
      Some ((s1, wb), Handler.mkResponse (Some 200) "paste") /\
    reading <$> heap wb !! pcache p = Some 0.
Proof.
  assert (Hc : cache s1 !! id1 = Some entry1) by by_computation.
  destruct (handleGet_serves_and_closes_the_handle Handler.sampleError frontPage
              render eightChars serve s1 w1 Handler.newResponse getPaste
              _ "a63d03b9" id1 entry1 eq_refl eq_refl eq_refl Hc eq_refl)
    as (p & wa & wb & Hg & Hh & Hr & _).
  exists p, wa, wb. split; [exact Hg|]. split; [exact Hh | exact Hr].
Defined.

Lemma handleGet_nonsense_witness :
  Http.handleGet Handler.sampleError frontPage render eightChars serve
                 (s1, w1) Handler.newResponse getNonsense =
    Some ((s1, w1),
          Handler.mkResponse (Some 400) ("invalid paste id" ++ Handler.newline)).
Proof.
  rewrite (handleGet_path_without_id Handler.sampleError frontPage render
             eightChars serve (s1, w1) Handler.newResponse getNonsense eq_refl).
  - reflexivity.
  - intros a rest id [= <- <-]. discriminate.
Defined.

Lemma newHandler_other_method_witness :
  Http.Method putPaste <> "POST"%string /\
  Http.newHandler "http://paste.cat" lifeTime Handler.sampleError frontPage
                  render eightChars serve willAccept Handler.newResponse putPaste =
    Some (willAccept,
          Handler.mkResponse (Some 400) ("unsupported action" ++ Handler.newline)).
Proof.
  assert (Hm : Http.Method putPaste <> "POST"%string) by discriminate.
  split; [exact Hm|].
  destruct (Http.newHandler "http://paste.cat" lifeTime Handler.sampleError
              frontPage render eightChars serve willAccept Handler.newResponse
              putPaste) as [[x' w']|] eqn:HN; [|exfalso; revert HN; by_computation].
  destruct (newHandler_only_POST_changes_quota _ _ _ _ _ _ _ _ _ _ _ _ Hm HN)
    as (_ & _ & Hrest).
  destruct Hrest as [-> ->]; [discriminate | reflexivity].
Defined.

Lemma setupStore_witness :
  Http.setupStore (string * string) (fun _ _ d => ("fs", d)) (fun _ _ d => ("fs-mmap", d))
                  ("mem", "") ("", "") roomyStats lifeTime "fs-mmap" ["data"] =
    inr ("fs-mmap", "data")%string.
Proof.
  exact (proj2 (proj2 (proj2
           (setupStore_chooses_the_constructor (string * string)
              (fun _ _ d => ("fs", d)) (fun _ _ d => ("fs-mmap", d))
              ("mem", "") ("", "") roomyStats lifeTime "fs-mmap" ["data"])))
           eq_refl).
Defined.

End RequestWitnesses.
